(** * pdf-parser: the page segmentation and heading association of [main.py]

    A shallow embedding of the [PDFParser] class of [src/main.py] and the
    properties of its text cleaner, heading classifier, paragraph segmenter,
    table extractor, chart detector and context propagator.

    Conventions of the embedding.
    - A Python [str] is a list of characters; characters are the code points
      below 256 ([ascii]).  The classes [\s] and [\d] and [str.strip] follow
      Python's Unicode tables restricted to that range.
    - Regular expressions are the fragment the source uses: a sequence of
      greedily quantified character classes, the anchors [^] and [$] and one
      capture group, matched by backtracking as [re] does.
    - A geometry value (a Python float) is kept as the rational number it
      is equal to; a coordinate rounded to one decimal place is kept as its
      integer number of tenths.  Arithmetic on floats is binary64
      arithmetic: the operands are taken as doubles, the result is rounded
      to nearest, ties to even.
    - Exceptions and the logger are an error monad over a log; the page
      decoder and the table service are collaborators that answer or
      raise. *)

From Stdlib Require Import List Ascii String ZArith QArith Lia Bool Arith.
From Stdlib Require Import Qabs Numbers.DecimalString SpecFloat.
From Stdlib Require Import Sorting.Sorted Sorting.Permutation.
Import ListNotations.
Close Scope Q_scope.

(* ================================================================= *)
(** ** Strings *)

Module Str.

Definition str := list ascii.

Definition lit (s : string) : str := list_ascii_of_string s.

Definition code (c : ascii) : N := N_of_ascii c.

Definition in_range (lo hi : N) (c : ascii) : bool :=
  ((lo <=? code c) && (code c <=? hi))%N.

(** '\n' *)
Definition nl : ascii := ascii_of_N 10.
Definition space : ascii := ascii_of_N 32.

Definition is_nl (c : ascii) : bool := (code c =? 10)%N.

(** [str.isspace] on one character, which is also the class [\s] of a
    [str] pattern: TAB..CR, FS..US, SPACE, NEL and NBSP. *)
Definition is_space (c : ascii) : bool :=
  in_range 9 13 c || in_range 28 31 c
  || (code c =? 32)%N || (code c =? 133)%N || (code c =? 160)%N.

(** The class [\d]. *)
Definition is_digit (c : ascii) : bool := in_range 48 57 c.
(** The classes [[A-Z]] and [[a-z]]. *)
Definition is_upper (c : ascii) : bool := in_range 65 90 c.
Definition is_lower (c : ascii) : bool := in_range 97 122 c.

Fixpoint drop_while (p : ascii -> bool) (s : str) : str :=
  match s with
  | [] => []
  | c :: s' => if p c then drop_while p s' else s
  end.

(** [str.lstrip()], [str.rstrip()], [str.strip()] *)
Definition lstrip (s : str) : str := drop_while is_space s.
Definition rstrip (s : str) : str := rev (drop_while is_space (rev s)).
Definition strip (s : str) : str := rstrip (lstrip s).

(** [sep.join(parts)] *)
Fixpoint join (sep : str) (parts : list str) : str :=
  match parts with
  | [] => []
  | [p] => p
  | p :: rest => p ++ sep ++ join sep rest
  end.

(** [text.split('\n')]: always at least one field. *)
Fixpoint split_nl_aux (cur : str) (s : str) : list str :=
  match s with
  | [] => [rev cur]
  | c :: s' => if is_nl c then rev cur :: split_nl_aux [] s'
               else split_nl_aux (c :: cur) s'
  end.

Definition split_nl (s : str) : list str := split_nl_aux [] s.

(** [str(n)] for a non-negative integer *)
Definition str_of_nat (n : nat) : str :=
  lit (NilEmpty.string_of_uint (Nat.to_uint n)).

(** Python truthiness of an optional string: neither [None] nor [""]. *)
Definition truthy (o : option str) : bool :=
  match o with
  | Some (_ :: _) => true
  | _ => false
  end.

End Str.
Import Str.

(* ================================================================= *)
(** ** Regular expressions *)

Module Re.

Inductive quant := One | Opt | Star | Plus.

Inductive atom :=
| Cls (p : ascii -> bool) (q : quant)
| Bol
| Eol
| GroupOpen
| GroupClose.

Definition regex := list atom.

(** Length of the longest prefix of [s] inside the class [p]. *)
Fixpoint span_len (p : ascii -> bool) (s : str) : nat :=
  match s with
  | c :: s' => if p c then S (span_len p s') else 0
  | [] => 0
  end.

(** Greedy choice with backtracking: try [k], [k-1], ..., [lo]. *)
Fixpoint try_down {R} (cont : nat -> option R) (lo k : nat) : option R :=
  if k <? lo then None
  else match cont k with
       | Some r => Some r
       | None => match k with
                 | 0 => None
                 | S k' => try_down cont lo k'
                 end
       end.

(** Least and greatest repetition count, given [n] available characters. *)
Definition quant_bounds (q : quant) (n : nat) : nat * nat :=
  match q with
  | One => (1, Nat.min 1 n)
  | Opt => (0, Nat.min 1 n)
  | Star => (0, n)
  | Plus => (1, n)
  end.

(** The character before the position reached after [k] more characters. *)
Definition prev_after (prev : option ascii) (s : str) (k : nat) : option ascii :=
  match k with
  | 0 => prev
  | S k' => nth_error s k'
  end.

Definition at_bol (multiline : bool) (prev : option ascii) : bool :=
  match prev with
  | None => true
  | Some c => multiline && is_nl c
  end.

Definition at_eol (multiline : bool) (s : str) : bool :=
  match s with
  | [] => true
  | c :: r => is_nl c && (multiline || match r with [] => true | _ => false end)
  end.

(** [rmatch ml re prev s i gs ge]: match [re] against the suffix [s], whose
    preceding character is [prev], [i] characters after the start of the
    match; [gs], [ge] are the bounds of group 1 seen so far.  Returns the
    end offset and the bounds of group 1. *)
Fixpoint rmatch (ml : bool) (re : regex) (prev : option ascii) (s : str)
         (i gs ge : nat) : option (nat * nat * nat) :=
  match re with
  | [] => Some (i, gs, ge)
  | Bol :: re' => if at_bol ml prev then rmatch ml re' prev s i gs ge else None
  | Eol :: re' => if at_eol ml s then rmatch ml re' prev s i gs ge else None
  | GroupOpen :: re' => rmatch ml re' prev s i i ge
  | GroupClose :: re' => rmatch ml re' prev s i gs i
  | Cls p q :: re' =>
      let '(lo, hi) := quant_bounds q (span_len p s) in
      try_down (fun k => rmatch ml re' (prev_after prev s k) (skipn k s)
                                (i + k) gs ge) lo hi
  end.

(** [re.match(pattern, s, flags)] followed by [.group(1)] *)
Definition match_group1 (ml : bool) (re : regex) (s : str) : option str :=
  match rmatch ml re None s 0 0 0 with
  | Some (_, gs, ge) => Some (firstn (ge - gs) (skipn gs s))
  | None => None
  end.

Definition dec_limit (limit : option nat) : option nat :=
  match limit with
  | Some n => Some (pred n)
  | None => None
  end.

(** The scan of [re.sub]: leftmost matches, not overlapping, at most
    [limit] of them; an empty match is replaced and one character copied. *)
Fixpoint sub_loop (fuel : nat) (re : regex) (repl : str) (limit : option nat)
         (prev : option ascii) (s : str) : str :=
  match fuel with
  | 0 => s
  | S f =>
      match limit with
      | Some 0 => s
      | _ =>
          match rmatch false re prev s 0 0 0 with
          | Some (S n, _, _) =>
              repl ++ sub_loop f re repl (dec_limit limit)
                               (nth_error s n) (skipn (S n) s)
          | Some (0, _, _) =>
              repl ++ match s with
                      | [] => []
                      | c :: s' => c :: sub_loop f re repl (dec_limit limit)
                                                 (Some c) s'
                      end
          | None =>
              match s with
              | [] => []
              | c :: s' => c :: sub_loop f re repl limit (Some c) s'
              end
          end
      end
  end.

(** [re.sub(pattern, repl, string, count)]; [count = 0] replaces all. *)
Definition re_sub (re : regex) (repl : str) (s : str) (count : nat) : str :=
  sub_loop (S (List.length s)) re repl
           (match count with 0 => None | _ => Some count end) None s.

(** A literal text inside a pattern. *)
Definition chars (s : string) : regex :=
  map (fun c => Cls (Ascii.eqb c) One) (lit s).

End Re.
Import Re.

(* ================================================================= *)
(** ** The patterns and the text cleaner *)

(** The classes [[A-Za-z]], [[A-Za-z\s]], [[A-Z\s]] and the literal [\.]. *)
Definition is_alpha (c : ascii) : bool := is_upper c || is_lower c.
Definition is_alpha_space (c : ascii) : bool := is_alpha c || is_space c.
Definition is_upper_space (c : ascii) : bool := is_upper c || is_space c.
Definition is_dot (c : ascii) : bool := (code c =? 46)%N.

(** [r'\s+'] *)
Definition ws_run : regex := [Cls is_space Plus].

(** [r'\n\s*\d+\s*\n'] *)
Definition page_number_line : regex :=
  [Cls is_nl One; Cls is_space Star; Cls is_digit Plus; Cls is_space Star;
   Cls is_nl One].

(** [r'\n\s*Page \d+ of \d+\s*\n'] *)
Definition page_footer_line : regex :=
  [Cls is_nl One; Cls is_space Star] ++ chars "Page "
  ++ [Cls is_digit Plus] ++ chars " of "
  ++ [Cls is_digit Plus; Cls is_space Star; Cls is_nl One].

(** The integer value of the flag [re.IGNORECASE]. *)
Definition IGNORECASE : nat := 2.

(** [PDFParser.clean_text].  The fourth positional argument of [re.sub] is
    [count], so the third call limits the replacements to [IGNORECASE]. *)
Definition clean_text (text : str) : str :=
  match text with
  | [] => []
  | _ =>
      let text := re_sub ws_run (lit " ") text 0 in
      let text := re_sub page_number_line [nl] text 0 in
      let text := re_sub page_footer_line [nl] text IGNORECASE in
      strip text
  end.

(* ================================================================= *)
(** ** Shapes of cleaned text *)

(** Every whitespace character is a single space followed by a character
    that is not whitespace, or by nothing. *)
Fixpoint collapsed (s : str) : bool :=
  match s with
  | [] => true
  | c :: r =>
      (if is_space c
       then Ascii.eqb c space
            && match r with [] => true | d :: _ => negb (is_space d) end
       else true)
      && collapsed r
  end.

Definition starts_with_space (s : str) : bool :=
  match s with
  | c :: _ => is_space c
  | [] => false
  end.

Definition ends_with_space (s : str) : bool := starts_with_space (rev s).

(** Two whitespace characters next to each other somewhere in [s]. *)
Fixpoint has_space_pair (s : str) : bool :=
  match s with
  | c :: r => (is_space c && starts_with_space r) || has_space_pair r
  | [] => false
  end.

(** A text written with [|] standing for a newline. *)
Definition nlit (s : string) : str :=
  map (fun c => if Ascii.eqb c "|" then nl else c) (lit s).

(* ================================================================= *)
(** ** The heading classifier *)

(** [section_patterns] of [extract_sections_and_subsections]:
    [^\s*(\d+\.?\s*[A-Z][A-Za-z\s]+)], [^\s*([A-Z][A-Z\s]+)\s*$],
    [^\s*([A-Z][a-z][A-Za-z\s]+)\s*$]. *)
Definition section_patterns : list regex :=
  [ [Bol; Cls is_space Star; GroupOpen;
     Cls is_digit Plus; Cls is_dot Opt; Cls is_space Star;
     Cls is_upper One; Cls is_alpha_space Plus; GroupClose];
    [Bol; Cls is_space Star; GroupOpen;
     Cls is_upper One; Cls is_upper_space Plus; GroupClose;
     Cls is_space Star; Eol];
    [Bol; Cls is_space Star; GroupOpen;
     Cls is_upper One; Cls is_lower One; Cls is_alpha_space Plus; GroupClose;
     Cls is_space Star; Eol] ].

(** [subsection_patterns]:
    [^\s*(\d+\.\d+\.?\s*[A-Za-z][A-Za-z\s]+)],
    [^\s*([a-z]\.\s*[A-Za-z][A-Za-z\s]+)],
    [^\s*([A-Z][a-z][A-Za-z\s]+)\s*$]. *)
Definition subsection_patterns : list regex :=
  [ [Bol; Cls is_space Star; GroupOpen;
     Cls is_digit Plus; Cls is_dot One; Cls is_digit Plus; Cls is_dot Opt;
     Cls is_space Star; Cls is_alpha One; Cls is_alpha_space Plus; GroupClose];
    [Bol; Cls is_space Star; GroupOpen;
     Cls is_lower One; Cls is_dot One; Cls is_space Star;
     Cls is_alpha One; Cls is_alpha_space Plus; GroupClose];
    [Bol; Cls is_space Star; GroupOpen;
     Cls is_upper One; Cls is_lower One; Cls is_alpha_space Plus; GroupClose;
     Cls is_space Star; Eol] ].

(** The loop [for pattern in section_patterns], with its [break]. *)
Fixpoint scan_section (pats : list regex) (line : str) (section : option str)
  : option str :=
  match pats with
  | [] => section
  | pat :: rest =>
      match match_group1 true pat line with
      | Some g =>
          if negb (truthy section) then Some (strip g)
          else scan_section rest line section
      | None => scan_section rest line section
      end
  end.

(** The loop [for pattern in subsection_patterns], with its [break]. *)
Fixpoint scan_sub_section (pats : list regex) (line : str)
         (section sub_section : option str) : option str :=
  match pats with
  | [] => sub_section
  | pat :: rest =>
      match match_group1 true pat line with
      | Some g =>
          if negb (truthy sub_section) && truthy section then Some (strip g)
          else scan_sub_section rest line section sub_section
      | None => scan_sub_section rest line section sub_section
      end
  end.

(** What one inspected line does to [(section, sub_section)]. *)
Definition classify_line (st : option str * option str) (line : str)
  : option str * option str :=
  let section := scan_section section_patterns line (fst st) in
  let sub_section :=
    scan_sub_section subsection_patterns line section (snd st) in
  (section, sub_section).

(** The body of [for line in lines[:5]]. *)
Definition scan_line (st : option str * option str) (raw : str)
  : option str * option str :=
  match strip raw with
  | [] => st
  | line => classify_line st line
  end.

(** [PDFParser.extract_sections_and_subsections] *)
Definition extract_sections_and_subsections (text : str)
  : option str * option str :=
  fold_left scan_line (firstn 5 (split_nl text)) (None, None).

(** The lines the classifier looks at: of the first five lines, those
    that are not empty once trimmed. *)
Definition nonempty (s : str) : bool :=
  match s with [] => false | _ => true end.

Definition inspected_lines (text : str) : list str :=
  filter nonempty (map strip (firstn 5 (split_nl text))).

(** The reading of the specification: the first five lines among those
    that are not empty once trimmed. *)
Definition first5_nonempty_lines (text : str) : list str :=
  firstn 5 (filter nonempty (map strip (split_nl text))).

Definition classify_first5_nonempty (text : str) : option str * option str :=
  fold_left classify_line (first5_nonempty_lines text) (None, None).

(* ================================================================= *)
(** ** Page data and content blocks *)

(** One glyph of [page.chars]: its text and the bottom of its box. *)
Record pdf_char := { c_text : str; c_y0 : Q }.

(** One entry of [page.images]; every field is read with [.get]. *)
Record image := {
  i_width : option Q; i_height : option Q;
  i_x0 : option Q; i_y0 : option Q; i_x1 : option Q; i_y1 : option Q }.

Record page := { page_chars : list pdf_char; page_images : list image }.

(** A content block: the dictionaries built for paragraphs, tables and
    charts. *)
Inductive block :=
| ParagraphBlock (section sub_section : option str) (text : str)
| TableBlock (section sub_section : option str) (description : str)
             (table_data : list (list str))
| ChartBlock (section sub_section : option str) (description : str)
             (table_data : list (list str)) (dimensions : Q * Q).

(** [block.get("section")], [block.get("sub_section")] *)
Definition block_section (b : block) : option str :=
  match b with
  | ParagraphBlock s _ _ | TableBlock s _ _ _ | ChartBlock s _ _ _ _ => s
  end.

Definition block_sub_section (b : block) : option str :=
  match b with
  | ParagraphBlock _ s _ | TableBlock _ s _ _ | ChartBlock _ s _ _ _ => s
  end.

(** [b["section"] = s; b["sub_section"] = ss] *)
Definition set_context (b : block) (s ss : option str) : block :=
  match b with
  | ParagraphBlock _ _ t => ParagraphBlock s ss t
  | TableBlock _ _ d rows => TableBlock s ss d rows
  | ChartBlock _ _ d rows dims => ChartBlock s ss d rows dims
  end.

Definition is_paragraph (b : block) : bool :=
  match b with ParagraphBlock _ _ _ => true | _ => false end.

(* ================================================================= *)
(** ** Double precision *)

Module Dbl.

(** A Python float: an IEEE 754 binary64 number. *)
Definition double := spec_float.

Definition prec : Z := 53.
Definition emax : Z := 1024.

(** An integer as an unrounded operand of a division. *)
Definition of_Z (z : Z) : double :=
  match z with
  | Z0 => S754_zero false
  | Zpos m => S754_finite false m 0
  | Zneg m => S754_finite true m 0
  end.

(** The double nearest to a rational, ties to even: the rational itself
    when it is a double. *)
Definition of_Q (q : Q) : double :=
  SFdiv prec emax (of_Z (Qnum q)) (of_Z (Zpos (Qden q))).

(** [x - y], [abs(x)], [x < y] on floats *)
Definition sub (x y : double) : double := SFsub prec emax x y.
Definition abs (x : double) : double := SFabs x.
Definition ltb (x y : double) : bool := SFltb x y.

End Dbl.

(* ================================================================= *)
(** ** The paragraph segmenter *)

(** Nearest integer, ties to the even one. *)
Definition round_half_even (q : Q) : Z :=
  let n := Qnum q in
  let d := Zpos (Qden q) in
  let f := (n / d)%Z in
  match (2 * (n mod d) ?= d)%Z with
  | Lt => f
  | Gt => (f + 1)%Z
  | Eq => if Z.even f then f else (f + 1)%Z
  end.

(** [round(y, 1)], as a number of tenths. *)
Definition round1 (y : Q) : Z := round_half_even (y * 10)%Q.

(** [if y not in lines: lines[y] = []] then [lines[y].append(char)], on a
    dictionary kept in insertion order. *)
Fixpoint add_char (y : Z) (c : pdf_char) (lines : list (Z * list pdf_char))
  : list (Z * list pdf_char) :=
  match lines with
  | [] => [(y, [c])]
  | (k, cs) :: rest =>
      if (k =? y)%Z then (k, cs ++ [c]) :: rest
      else (k, cs) :: add_char y c rest
  end.

Definition group_lines (text_objects : list pdf_char) : list (Z * list pdf_char) :=
  fold_left (fun lines c => add_char (round1 (c_y0 c)) c lines) text_objects [].

(** [sorted(lines.items(), key=lambda x: -x[0])]: a stable sort, larger
    coordinate first. *)
Fixpoint insert_desc (x : Z * list pdf_char) (l : list (Z * list pdf_char))
  : list (Z * list pdf_char) :=
  match l with
  | [] => [x]
  | h :: t => if (fst h <=? fst x)%Z then x :: l else h :: insert_desc x t
  end.

Definition sorted_lines (lines : list (Z * list pdf_char)) : list (Z * list pdf_char) :=
  fold_right insert_desc [] lines.

(** [''.join([char['text'] for char in chars]).strip()] *)
Definition line_text (chars : list pdf_char) : str :=
  strip (List.concat (map c_text chars)).

(** The float that [round(y, 1)] returns, from its number of tenths. *)
Definition rounded (k : Z) : Dbl.double := Dbl.of_Q (k # 10).

(** [abs(y - current_y_group)] on the rounded floats *)
Definition gap (y g : Z) : Dbl.double :=
  Dbl.abs (Dbl.sub (rounded y) (rounded g)).

Definition gap_limit : Dbl.double := Dbl.of_Q 20.

(** Closing a paragraph buffer: the block is appended when the trimmed
    joined text is longer than ten characters. *)
Definition flush (current_paragraph : list str) : list block :=
  let paragraph_text := join [space] current_paragraph in
  if 10 <? List.length (strip paragraph_text) then
    let '(section, sub_section) := extract_sections_and_subsections paragraph_text in
    [ParagraphBlock section sub_section (clean_text paragraph_text)]
  else [].

Record seg_state := {
  content_blocks : list block;
  current_paragraph : list str;
  current_y_group : option Z }.

Definition gap_exceeded (y : Z) (current_y_group : option Z) : bool :=
  match current_y_group with
  | Some g => Dbl.ltb gap_limit (gap y g)
  | None => false
  end.

(** The body of [for y, chars in sorted_lines]. *)
Definition seg_step (st : seg_state) (ln : Z * list pdf_char) : seg_state :=
  let '(y, chars) := ln in
  match line_text chars with
  | [] => st
  | text =>
      let st1 :=
        if gap_exceeded y (current_y_group st) then
          match current_paragraph st with
          | [] => st
          | buf => {| content_blocks := content_blocks st ++ flush buf;
                      current_paragraph := [];
                      current_y_group := current_y_group st |}
          end
        else st in
      {| content_blocks := content_blocks st1;
         current_paragraph := current_paragraph st1 ++ [text];
         current_y_group := Some y |}
  end.

Definition seg_init : seg_state :=
  {| content_blocks := []; current_paragraph := []; current_y_group := None |}.

(** [PDFParser.analyze_content_blocks] *)
Definition analyze_content_blocks (text_objects : list pdf_char) : list block :=
  match text_objects with
  | [] => []
  | _ =>
      let st := fold_left seg_step (sorted_lines (group_lines text_objects)) seg_init in
      match current_paragraph st with
      | [] => content_blocks st
      | buf => content_blocks st ++ flush buf
      end
  end.

(** The glyphs of a text set on one line at height [y]. *)
Definition glyphs (y : Q) (s : string) : list pdf_char :=
  map (fun c => {| c_text := [c]; c_y0 := y |}) (lit s).

(* ================================================================= *)
(** ** The chart detector *)

(** [d.get(key, default)] *)
Definition get (field : option Q) (default : Q) : Q :=
  match field with
  | Some v => v
  | None => default
  end.

Definition Qlt_bool (a b : Q) : bool := negb (Qle_bool b a).

(** [abs(text_y - edge) < 50] *)
Definition near (edge : Q) (c : pdf_char) : bool :=
  Dbl.ltb (Dbl.abs (Dbl.sub (Dbl.of_Q (c_y0 c)) (Dbl.of_Q edge)))
          (Dbl.of_Q 50).

(** The loop [for text_obj in page.chars] that builds [nearby_text]. *)
Fixpoint nearby_loop (y1 : Q) (chars : list pdf_char) (nearby_text : str) : str :=
  match chars with
  | [] => nearby_text
  | text_obj :: rest =>
      if near y1 text_obj
      then nearby_loop y1 rest (nearby_text ++ c_text text_obj)
      else nearby_loop y1 rest nearby_text
  end.

(** The [description] f-strings. *)
Definition chart_description (i : nat) (nearby_text : str) : str :=
  match nearby_text with
  | [] => lit "Chart/Image " ++ str_of_nat (i + 1)
  | _ => lit "Chart/Image " ++ str_of_nat (i + 1) ++ lit " - "
         ++ firstn 100 nearby_text ++ lit "..."
  end.

(** The loop [for i, image in enumerate(images)]. *)
Fixpoint charts_loop (i : nat) (images : list image) (chars : list pdf_char)
         (charts : list block) : list block :=
  match images with
  | [] => charts
  | image :: rest =>
      let width := get (i_width image) 0 in
      let height := get (i_height image) 0 in
      if Qlt_bool 100 width && Qlt_bool 100 height then
        let y1 := get (i_y1 image) height in
        let nearby_text := nearby_loop y1 chars [] in
        charts_loop (S i) rest chars
          (charts ++ [ChartBlock None None (chart_description i nearby_text)
                                 [] (width, height)])
      else charts_loop (S i) rest chars charts
  end.

(** The size filter, the caption and the block of one image. *)
Definition chart_like (image : image) : bool :=
  Qlt_bool 100 (get (i_width image) 0) && Qlt_bool 100 (get (i_height image) 0).

Definition caption (edge : Q) (chars : list pdf_char) : str :=
  List.concat (map c_text (filter (near edge) chars)).

Definition chart_block (i : nat) (image : image) (cap : str) : block :=
  ChartBlock None None (chart_description i cap) []
             (get (i_width image) 0, get (i_height image) 0).

(** The edges of an image box when the origin is the bottom left corner
    of the page: [y0] is the bottom, [y1] the top. *)
Definition bottom_edge (image : image) : Q := get (i_y0 image) 0.
Definition top_edge (image : image) : Q := get (i_y1 image) (get (i_height image) 0).

(* ================================================================= *)
(** ** Exceptions and the logger *)

Module Eff.

Inductive level := INFO | WARNING.

(** The records sent to [self.logger], oldest first. *)
Definition log := list (level * str).

(** A raised [Exception] is kept as the text [str(e)]. *)
Definition exn := str.

Inductive outcome (A : Type) :=
| Ok (a : A)
| Raise (e : exn).

Arguments Ok {A} a.
Arguments Raise {A} e.

(** A computation that may log and may raise. *)
Definition M (A : Type) := log -> outcome A * log.

Definition ret {A} (a : A) : M A := fun l => (Ok a, l).

Definition bind {A B} (m : M A) (k : A -> M B) : M B :=
  fun l => match m l with
           | (Ok a, l') => k a l'
           | (Raise e, l') => (Raise e, l')
           end.

Definition raise {A} (e : exn) : M A := fun l => (Raise e, l).

(** A call into a collaborator, which answers or raises. *)
Definition call {A} (r : outcome A) : M A := fun l => (r, l).

Definition logger_info (msg : str) : M unit := fun l => (Ok tt, l ++ [(INFO, msg)]).
Definition logger_warning (msg : str) : M unit := fun l => (Ok tt, l ++ [(WARNING, msg)]).

(** [try: body  except Exception as e: handler e] *)
Definition try_except {A} (body : M A) (handler : exn -> M A) : M A :=
  fun l => match body l with
           | (Ok a, l') => (Ok a, l')
           | (Raise e, l') => handler e l'
           end.

(** [for x in xs: ...] collecting one result per element. *)
Fixpoint for_each {A B} (f : A -> M B) (xs : list A) : M (list B) :=
  match xs with
  | [] => ret []
  | x :: rest =>
      bind (f x) (fun y => bind (for_each f rest) (fun ys => ret (y :: ys)))
  end.

End Eff.
Import Eff.

Notation "x <- m ;; k" := (bind m (fun x => k))
  (at level 61, m at next level, right associativity).
Notation "m ;;; k" := (bind m (fun _ => k))
  (at level 61, right associativity).

(* ================================================================= *)
(** ** The table extractor, the context propagator and [parse_pdf] *)

(** [table.df]: the rows of a table, each a list of cells. *)
Definition DataFrame := list (list str).

(** [df.empty]: no row or no column. *)
Definition df_empty (df : DataFrame) : bool :=
  match df with
  | [] => true
  | [] :: _ => true
  | _ => false
  end.

(** [any(str(cell).strip() for cell in row)] *)
Definition row_has_content (row : list str) : bool :=
  existsb (fun cell => nonempty (strip cell)) row.

(** The loop [for i, table in enumerate(camelot_tables)]. *)
Fixpoint tables_loop (page_num i : nat) (camelot_tables : list DataFrame)
         (tables : list block) : list block :=
  match camelot_tables with
  | [] => tables
  | df :: rest =>
      if df_empty df then tables_loop page_num (S i) rest tables
      else
        match filter row_has_content df with
        | [] => tables_loop page_num (S i) rest tables
        | table_data =>
            tables_loop page_num (S i) rest
              (tables ++ [TableBlock None None
                            (lit "Table " ++ str_of_nat (i + 1)
                             ++ lit " from page " ++ str_of_nat page_num)
                            table_data])
        end
  end.

(** The scan [for block in reversed(text_blocks)] with its [break]. *)
Fixpoint nearest_heading (reversed_blocks : list block)
  : option (option str * option str) :=
  match reversed_blocks with
  | [] => None
  | b :: rest =>
      if truthy (block_section b)
      then Some (block_section b, block_sub_section b)
      else nearest_heading rest
  end.

(** The body of [for table in tables] and of [for chart in charts]. *)
Definition assign_context (text_blocks : list block) (b : block) : block :=
  match nearest_heading (rev text_blocks) with
  | Some (s, ss) => set_context b s ss
  | None => b
  end.

Section Parser.

(** [self.pdf_path], whether that file exists, and the table service
    [camelot.read_pdf(path, pages=..., flavor='lattice')]. *)
Variable pdf_path : str.
Variable path_exists : bool.
Variable read_pdf : str -> str -> outcome (list DataFrame).

(** [PDFParser.extract_tables_from_page].  [tables] is still empty when
    the call of the service raises. *)
Definition extract_tables_from_page (page_num : nat) : M (list block) :=
  let tables := [] in
  try_except
    (camelot_tables <- call (read_pdf pdf_path (str_of_nat page_num)) ;;
     ret (tables_loop page_num 0 camelot_tables tables))
    (fun e =>
       logger_warning (lit "Could not extract tables from page "
                       ++ str_of_nat page_num ++ lit ": " ++ e) ;;;
       ret tables).

(** [PDFParser.detect_charts_in_page] *)
Definition detect_charts_in_page (pg : page) : M (list block) :=
  let charts := [] in
  try_except
    (ret (charts_loop 0 (page_images pg) (page_chars pg) charts))
    (fun e =>
       logger_warning (lit "Could not detect charts: " ++ e) ;;;
       ret charts).

(** The body of [for page_num, page in enumerate(pdf.pages, 1)].  The
    data of a page is decoded when [page.chars] is first read, in
    [analyze_content_blocks]; that reading answers with the page data or
    raises, outside any [try]. *)
Definition process_page (numbered : nat * outcome page) : M (nat * list block) :=
  let '(page_num, decoded) := numbered in
  logger_info (lit "Processing page " ++ str_of_nat page_num) ;;;
  pg <- call decoded ;;
  let text_blocks := analyze_content_blocks (page_chars pg) in
  tables <- extract_tables_from_page page_num ;;
  let tables := map (assign_context text_blocks) tables in
  charts <- detect_charts_in_page pg ;;
  let charts := map (assign_context text_blocks) charts in
  ret (page_num, text_blocks ++ tables ++ charts).

(** [enumerate(pages, 1)] *)
Definition enumerate1 {A} (xs : list A) : list (nat * A) :=
  combine (seq 1 (List.length xs)) xs.

(** [PDFParser.parse_pdf].  [decoder] is what [pdfplumber.open] and
    [pdf.pages] do with the file: they raise, or yield the pages, each
    still to be decoded. *)
Definition parse_pdf (decoder : outcome (list (outcome page)))
  : M (list (nat * list block)) :=
  if negb path_exists then
    raise (lit "PDF file not found: " ++ pdf_path)
  else
    logger_info (lit "Parsing PDF: " ++ pdf_path) ;;;
    pages <- call decoder ;;
    result <- for_each process_page (enumerate1 pages) ;;
    logger_info (lit "Successfully parsed "
                 ++ str_of_nat (List.length result) ++ lit " pages") ;;;
    ret result.

End Parser.

(** A file that opens and whose pages all decode. *)
Definition readable (pages : list page) : outcome (list (outcome page)) :=
  Ok (map Ok pages).

(** The tables and the charts among the blocks of a page. *)
Definition is_table (b : block) : bool :=
  match b with TableBlock _ _ _ _ => true | _ => false end.
Definition is_chart (b : block) : bool :=
  match b with ChartBlock _ _ _ _ _ => true | _ => false end.

(* ================================================================= *)
(** ** Notions used in the statements *)

(** The whitespace substitution written as one pass over the text;
    [in_run] tells that the previous character was whitespace. *)
Fixpoint collapse (in_run : bool) (s : str) : str :=
  match s with
  | [] => []
  | c :: r =>
      if is_space c
      then (if in_run then collapse true r else space :: collapse true r)
      else c :: collapse false r
  end.

(** The reading of the specification for the paragraph filter: a buffer
    is emitted exactly when its cleaned text is longer than ten
    characters. *)
Definition kept_iff_cleaned_long (buf : list str) : Prop :=
  flush buf <> [] <-> 10 < List.length (clean_text (join [space] buf)).

(** A page of two lines of text at the heights [y1] and [y2]. *)
Definition two_lines (y1 y2 : Q) : list pdf_char :=
  glyphs y1 "first line, of text." ++ glyphs y2 "second line.".

(** The states the segmenter loop can be in. *)
Definition seg_after (lines : list (Z * list pdf_char)) : seg_state :=
  fold_left seg_step lines seg_init.

(** The block of the image at index [i], its caption read near [edge]. *)
Definition chart_near (edge : image -> Q) (chars : list pdf_char)
           (numbered : nat * image) : list block :=
  let '(i, image) := numbered in
  if chart_like image
  then [chart_block i image (caption (edge image) chars)]
  else [].

(** [enumerate(images)] *)
Definition enumerate0 {A} (xs : list A) : list (nat * A) :=
  combine (seq 0 (List.length xs)) xs.

(** The reading of the specification for the chart detector: the caption
    of every chart-like image is read near the bottom edge of its box. *)
Definition captions_near_bottom_edge (pg : page) : Prop :=
  forall log,
    detect_charts_in_page pg log
    = (Ok (flat_map (chart_near bottom_edge (page_chars pg))
                    (enumerate0 (page_images pg))), log).

(** An image whose box spans the heights 100 to 250, and a page holding
    it with a line of text just under the box. *)
Definition figure_image : image :=
  {| i_width := Some 150%Q; i_height := Some 150%Q;
     i_x0 := Some 0%Q; i_y0 := Some 100%Q;
     i_x1 := Some 150%Q; i_y1 := Some 250%Q |}.

Definition figure_page : page :=
  {| page_chars := glyphs 90 "Fig"; page_images := [figure_image] |}.

(** A block as the extractors create it: no heading context yet. *)
Definition fresh (b : block) : Prop :=
  block_section b = None /\ block_sub_section b = None.

(** The heading context of a block. *)
Definition heading (b : block) : option str * option str :=
  (block_section b, block_sub_section b).

Definition section_set (b : block) : bool :=
  match block_section b with
  | Some _ => true
  | None => false
  end.

(** The reading of the specification for the context propagator: the
    heading of the first paragraph, scanning from the last one back,
    whose [section] is not null; both fields null when there is none. *)
Definition inherited_heading (paragraphs : list block) : option str * option str :=
  match find section_set (rev paragraphs) with
  | Some p => heading p
  | None => (None, None)
  end.

(** A table service that fails on every page. *)
Definition failing_service (_ _ : str) : outcome (list DataFrame) :=
  Raise (lit "boom").

(** Atoms that open and close group 1. *)
Definition opens_group (a : atom) : bool :=
  match a with GroupOpen => true | _ => false end.

Definition closes_group (a : atom) : bool :=
  match a with GroupClose => true | _ => false end.

(** The shape shared by the six heading patterns: optional leading
    whitespace, then a group that starts with a character of a class
    holding no whitespace. *)
Inductive heading_shape : regex -> Prop :=
| heading_shape_intro (cl : ascii -> bool) (q : quant) (rest : regex) :
    (q = One \/ q = Plus) ->
    (forall c, cl c = true -> is_space c = false) ->
    existsb opens_group rest = false ->
    existsb closes_group rest = true ->
    heading_shape (Bol :: Cls is_space Star :: GroupOpen :: Cls cl q :: rest).

(** A heading field is either unset or a non-empty string. *)
Definition well_set (o : option str) : Prop := o = None \/ truthy o = true.

Create HintDb heading.

Ltac heading_shape_tac :=
  apply heading_shape_intro;
  [ (left; reflexivity) || (right; reflexivity)
  | auto with heading
  | reflexivity
  | reflexivity ].


(* ================================================================= *)
(** ** Further notions: the cleaner and the classifier *)

(** A character that is not whitespace. *)
Definition non_space (c : ascii) : bool := negb (is_space c).

(** The first value that is set. *)
Fixpoint first_some {A} (l : list (option A)) : option A :=
  match l with
  | [] => None
  | Some x :: _ => Some x
  | None :: rest => first_some rest
  end.

(** The trimmed capture of the first of [pats] that matches [line]. *)
Definition first_capture (pats : list regex) (line : str) : option str :=
  first_some (map (fun pat => option_map strip (match_group1 true pat line)) pats).

(** A heading field, when set, is a non-empty trimmed string. *)
Definition trimmed_heading (o : option str) : Prop :=
  match o with
  | None => True
  | Some s => s <> [] /\ starts_with_space s = false /\ ends_with_space s = false
  end.

(** [^\s*([A-Z][a-z][A-Za-z\s]+)\s*$], the pattern that closes both
    the section list and the sub-section list. *)
Definition title_case_pattern : regex :=
  [Bol; Cls is_space Star; GroupOpen;
   Cls is_upper One; Cls is_lower One; Cls is_alpha_space Plus; GroupClose;
   Cls is_space Star; Eol].

(* ================================================================= *)
(** ** Further notions: the segmenter *)

(** The key under which a glyph is filed: its rounded height. *)
Definition line_key (c : pdf_char) : Z := round1 (c_y0 c).

(** [lines.get(k, [])] on the dictionary kept as a list. *)
Fixpoint line_chars (k : Z) (lines : list (Z * list pdf_char)) : list pdf_char :=
  match lines with
  | [] => []
  | (k', cs) :: rest => if (k' =? k)%Z then cs else line_chars k rest
  end.

(** The glyphs of [text_objects] whose rounded height is [k]. *)
Definition on_line (k : Z) (text_objects : list pdf_char) : list pdf_char :=
  filter (fun c => (line_key c =? k)%Z) text_objects.

(** Higher on the page. *)
Definition above (a b : Z * list pdf_char) : Prop := (fst b < fst a)%Z.

(** What the segmenter guarantees of a block it emits. *)
Definition sound_paragraph (b : block) : Prop :=
  exists section sub_section text,
    b = ParagraphBlock section sub_section text
    /\ text <> []
    /\ clean_text text = text
    /\ trimmed_heading section
    /\ trimmed_heading sub_section
    /\ (sub_section <> None -> section <> None).

(** The end of [analyze_content_blocks]: the last buffer is flushed. *)
Definition seg_finish (st : seg_state) : list block :=
  match current_paragraph st with
  | [] => content_blocks st
  | buf => content_blocks st ++ flush buf
  end.

(* ================================================================= *)
(** ** Further notions: tables, charts and the run over the pages *)

(** The block of the table at index [i] of the service's answer. *)
Definition table_of (page_num : nat) (numbered : nat * DataFrame) : list block :=
  let '(i, df) := numbered in
  if df_empty df then []
  else match filter row_has_content df with
       | [] => []
       | table_data =>
           [TableBlock None None
              (lit "Table " ++ str_of_nat (i + 1)
               ++ lit " from page " ++ str_of_nat page_num)
              table_data]
       end.

(** What the table extractor guarantees of a block it emits from the
    answer [dfs] of the service. *)
Definition sound_table (page_num : nat) (dfs : list DataFrame) (b : block) : Prop :=
  exists i df,
    nth_error dfs i = Some df
    /\ df_empty df = false
    /\ filter row_has_content df <> []
    /\ b = TableBlock None None
             (lit "Table " ++ str_of_nat (i + 1)
              ++ lit " from page " ++ str_of_nat page_num)
             (filter row_has_content df).

(** What the chart detector guarantees of a block it emits. *)
Definition sound_chart (pg : page) (b : block) : Prop :=
  exists i image,
    nth_error (page_images pg) i = Some image
    /\ (100 < get (i_width image) 0)%Q
    /\ (100 < get (i_height image) 0)%Q
    /\ b = ChartBlock None None
             (chart_description i (caption (top_edge image) (page_chars pg)))
             [] (get (i_width image) 0, get (i_height image) 0).

Section Pages.

Variable pdf_path : str.
Variable read_pdf : str -> str -> outcome (list DataFrame).

(** The table blocks of a page, before they receive their context. *)
Definition page_tables (page_num : nat) : list block :=
  match read_pdf pdf_path (str_of_nat page_num) with
  | Ok dfs => tables_loop page_num 0 dfs []
  | Raise _ => []
  end.

(** The content list of one page. *)
Definition page_content (numbered : nat * page) : nat * list block :=
  let '(page_num, pg) := numbered in
  let text_blocks := analyze_content_blocks (page_chars pg) in
  (page_num,
   text_blocks
   ++ map (assign_context text_blocks) (page_tables page_num)
   ++ map (assign_context text_blocks)
          (charts_loop 0 (page_images pg) (page_chars pg) [])).

(** The records one page sends to the logger. *)
Definition page_log (numbered : nat * page) : log :=
  let '(page_num, _) := numbered in
  (INFO, lit "Processing page " ++ str_of_nat page_num)
  :: match read_pdf pdf_path (str_of_nat page_num) with
     | Ok _ => []
     | Raise e => [(WARNING, lit "Could not extract tables from page "
                             ++ str_of_nat page_num ++ lit ": " ++ e)]
     end.

End Pages.

Definition is_warning (r : level * str) : bool :=
  match fst r with WARNING => true | INFO => false end.

(** Whether the table service fails on the page numbered [page_num]. *)
Definition table_failure (pdf_path : str)
           (read_pdf : str -> str -> outcome (list DataFrame))
           (page_num : nat) : bool :=
  match read_pdf pdf_path (str_of_nat page_num) with
  | Ok _ => false
  | Raise _ => true
  end.

(** A table service that finds one table of two rows, the second blank. *)
Definition one_table_service (_ _ : str) : outcome (list DataFrame) :=
  Ok [ [ [lit "Year"; lit "Total"]; [lit " "; lit ""] ] ].

(* ================================================================= *)
(** ** The command line *)

Section Cli.

(** [str(Path(p))]; whether the input file exists; the page decoder;
    the table service; and the writing of the JSON document,
    [open(output_path, 'w')] followed by [json.dump]. *)
Variable path_str : str -> str.
Variable path_exists : bool.
Variable decoder : outcome (list (outcome page)).
Variable read_pdf : str -> str -> outcome (list DataFrame).
Variable write_json : str -> list (nat * list block) -> outcome unit.




End Cli.

(** A heading field, when set, starts with a character of the class. *)
Definition starts_in (cl : ascii -> bool) (o : option str) : Prop :=
  match o with
  | None => True
  | Some [] => False
  | Some (c :: _) => cl c = true
  end.

Definition is_digit_or_upper (c : ascii) : bool := is_digit c || is_upper c.

(** A heading pattern whose group starts with a character of [first]. *)
Inductive heading_from (first : ascii -> bool) : regex -> Prop :=
| heading_from_intro (cl : ascii -> bool) (q : quant) (rest : regex) :
    (q = One \/ q = Plus) ->
    (forall c, cl c = true -> is_space c = false /\ first c = true) ->
    existsb opens_group rest = false ->
    existsb closes_group rest = true ->
    heading_from first (Bol :: Cls is_space Star :: GroupOpen :: Cls cl q :: rest).

(* ================================================================= *)
(** ** Further notions: a page of two lines, and the decoder *)

(** What a page of two lines of text gives: [upper] and [lower] are the
    trimmed texts of the lines at the heights [k_upper] > [k_lower]. *)
Definition two_line_blocks (k_upper k_lower : Z) (upper lower : str) : list block :=
  if Dbl.ltb gap_limit (gap k_lower k_upper)
  then flush [upper] ++ flush [lower]
  else flush [upper; lower].





(** Numbered pages that all decode. *)
Definition numbered_ok (l : list (nat * page)) : list (nat * outcome page) :=
  map (fun np => (fst np, Ok (snd np))) l.


(** A table or chart block with the heading of the nearest paragraph
    that has a section. *)
Definition inherit (text_blocks : list block) (b : block) : block :=
  set_context b (fst (inherited_heading text_blocks))
                (snd (inherited_heading text_blocks)).

(* ================================================================= *)
(** ** The readings of the specification for the gap between lines *)

(** The rational a finite double is equal to. *)
Definition double_value (x : Dbl.double) : Q :=
  match x with
  | S754_finite s m e =>
      ((if s then Zneg m else Zpos m) # 1) * Qpower (2 # 1) e
  | _ => 0
  end.

(** The float a decimal literal denotes, as the rational it equals. *)
Definition float_literal (q : Q) : Q := double_value (Dbl.of_Q q).

(** At most 20 units apart, the difference taken between the decimal
    values of the rounded coordinates. *)
Definition decimal_gap_within (y y0 : Z) : bool :=
  (Z.abs (y - y0) <=? 200)%Z.

(** At most 20 units apart, the difference taken exactly between the
    two rounded floats. *)
Definition exact_gap_within (y y0 : Z) : bool :=
  Qle_bool (Qabs (double_value (rounded y) - double_value (rounded y0))) 20.

(** A line joins the running paragraph exactly when [within] holds of
    it and the line before, and starts a new paragraph otherwise. *)
Definition merges_exactly_when (within : Z -> Z -> bool) : Prop :=
  forall lines y0 y chars,
    current_y_group (seg_after lines) = Some y0 ->
    line_text chars <> [] ->
    seg_step (seg_after lines) (y, chars)
    = if within y y0
      then {| content_blocks := content_blocks (seg_after lines);
              current_paragraph :=
                current_paragraph (seg_after lines) ++ [line_text chars];
              current_y_group := Some y |}
      else {| content_blocks :=
                content_blocks (seg_after lines)
                ++ flush (current_paragraph (seg_after lines));
              current_paragraph := [line_text chars];
              current_y_group := Some y |}.
(* ================================================================= *)
(** ** Lemmas on strings and on the matcher *)

Section StringLemmas.

Variable p : ascii -> bool.

Lemma drop_while_head c r : drop_while p (c :: r) = c :: r -> p c = false.
Proof.
  simpl. destruct (p c) eqn:E; [|reflexivity].
  intros H. exfalso.
  assert (L : List.length (drop_while p r) <= List.length r).
  { clear. induction r as [|d r IH]; simpl; [lia|].
    destruct (p d); simpl; lia. }
  rewrite H in L. simpl in L. lia.
Qed.

Lemma drop_while_length s : List.length (drop_while p s) <= List.length s.
Proof.
  induction s as [|c r IH]; simpl; [lia|]. destruct (p c); simpl; lia.
Qed.

Lemma drop_while_starts s :
  match drop_while p s with c :: _ => p c = false | [] => True end.
Proof.
  induction s as [|c r IH]; simpl; [exact I|].
  destruct (p c) eqn:E; [exact IH | exact E].
Qed.

Lemma drop_while_fixed s :
  match s with c :: _ => p c = false | [] => True end -> drop_while p s = s.
Proof.
  destruct s as [|c r]; simpl; [reflexivity|]. intros ->. reflexivity.
Qed.

Lemma drop_while_idem s : drop_while p (drop_while p s) = drop_while p s.
Proof. apply drop_while_fixed, drop_while_starts. Qed.

Lemma drop_while_app_last s d :
  p d = false -> drop_while p (s ++ [d]) = drop_while p s ++ [d].
Proof.
  intros Hd. induction s as [|c r IH]; simpl.
  - rewrite Hd. reflexivity.
  - destruct (p c); [exact IH | reflexivity].
Qed.

Lemma drop_while_suffix s : exists t, s = t ++ drop_while p s.
Proof.
  induction s as [|c r [t IH]]; simpl.
  - exists []. reflexivity.
  - destruct (p c).
    + exists (c :: t). simpl. f_equal. exact IH.
    + exists []. reflexivity.
Qed.

Lemma skipn_span_len s : skipn (span_len p s) s = drop_while p s.
Proof.
  induction s as [|c r IH]; simpl; [reflexivity|].
  destruct (p c); simpl; [exact IH | reflexivity].
Qed.

End StringLemmas.

Lemma rstrip_cons_keep d t :
  is_space d = false -> rstrip (d :: t) = d :: rstrip t.
Proof.
  intros Hd. unfold rstrip. simpl rev.
  rewrite drop_while_app_last by exact Hd.
  rewrite rev_app_distr. reflexivity.
Qed.

Lemma rstrip_prefix s : exists t, s = rstrip s ++ t.
Proof.
  unfold rstrip. destruct (drop_while_suffix is_space (rev s)) as [t Ht].
  exists (rev t).
  rewrite <- rev_app_distr, <- Ht, rev_involutive. reflexivity.
Qed.

Lemma rstrip_idem s : rstrip (rstrip s) = rstrip s.
Proof.
  unfold rstrip. rewrite rev_involutive, drop_while_idem. reflexivity.
Qed.

Lemma strip_starts s : starts_with_space (strip s) = false.
Proof.
  unfold strip, lstrip.
  pose proof (drop_while_starts is_space s) as H.
  destruct (drop_while is_space s) as [|d t].
  - reflexivity.
  - rewrite rstrip_cons_keep by exact H. exact H.
Qed.

Lemma strip_ends s : ends_with_space (strip s) = false.
Proof.
  unfold ends_with_space, strip, rstrip. rewrite rev_involutive.
  pose proof (drop_while_starts is_space (rev (lstrip s))) as H.
  destruct (drop_while is_space (rev (lstrip s))); simpl; [reflexivity | exact H].
Qed.

Lemma lstrip_fixed s : starts_with_space s = false -> lstrip s = s.
Proof.
  intros H. apply drop_while_fixed. destruct s; [exact I | exact H].
Qed.

Lemma strip_idem s : strip (strip s) = strip s.
Proof.
  unfold strip at 1. rewrite lstrip_fixed by apply strip_starts.
  unfold strip. apply rstrip_idem.
Qed.

Lemma is_nl_is_space c : is_nl c = true -> is_space c = true.
Proof.
  unfold is_nl, is_space, in_range. intros H.
  apply N.eqb_eq in H. rewrite H. reflexivity.
Qed.

Lemma is_nl_not_space_char c : is_nl c = true -> Ascii.eqb c space = false.
Proof.
  unfold is_nl, code. intros H. apply N.eqb_eq in H.
  apply Ascii.eqb_neq. intros ->. discriminate H.
Qed.

(** *** Shapes *)

Lemma collapsed_tail c r : collapsed (c :: r) = true -> collapsed r = true.
Proof. simpl. intros H. apply andb_true_iff in H. apply H. Qed.

Lemma collapsed_suffix t s : collapsed (t ++ s) = true -> collapsed s = true.
Proof.
  induction t as [|c t IH]; simpl app; [trivial|].
  intros H. apply IH. exact (collapsed_tail _ _ H).
Qed.

Lemma collapsed_prefix s t : collapsed (s ++ t) = true -> collapsed s = true.
Proof.
  induction s as [|c s IH]; [reflexivity|].
  simpl. intros H. apply andb_true_iff in H. destruct H as [H1 H2].
  rewrite (IH H2), andb_true_r.
  destruct (is_space c); [|reflexivity].
  apply andb_true_iff in H1. destruct H1 as [H1 H3]. rewrite H1.
  destruct s; [reflexivity | exact H3].
Qed.

Lemma collapsed_strip s : collapsed s = true -> collapsed (strip s) = true.
Proof.
  intros H. unfold strip.
  destruct (rstrip_prefix (lstrip s)) as [t Ht].
  apply collapsed_prefix with (t := t). rewrite <- Ht.
  unfold lstrip. destruct (drop_while_suffix is_space s) as [u Hu].
  apply collapsed_suffix with (t := u). rewrite <- Hu. exact H.
Qed.

Lemma collapsed_no_nl s : collapsed s = true -> existsb is_nl s = false.
Proof.
  induction s as [|c r IH]; [reflexivity|].
  intros H. simpl existsb. rewrite (IH (collapsed_tail _ _ H)), orb_false_r.
  destruct (is_nl c) eqn:E; [|reflexivity].
  simpl in H. rewrite (is_nl_is_space _ E), (is_nl_not_space_char _ E) in H.
  discriminate H.
Qed.

Lemma collapsed_no_pair s : collapsed s = true -> has_space_pair s = false.
Proof.
  induction s as [|c r IH]; [reflexivity|].
  intros H. simpl has_space_pair.
  rewrite (IH (collapsed_tail _ _ H)), orb_false_r.
  simpl in H. destruct (is_space c); [|reflexivity].
  apply andb_true_iff in H. destruct H as [H _].
  apply andb_true_iff in H. destruct H as [_ H].
  destruct r as [|d r]; [reflexivity|]. simpl.
  apply negb_true_iff in H. exact H.
Qed.

(** *** The whitespace substitution *)

Lemma rmatch_ws_run prev s :
  rmatch false ws_run prev s 0 0 0 =
  match span_len is_space s with
  | 0 => None
  | S n => Some (S n, 0, 0)
  end.
Proof.
  unfold ws_run. simpl. destruct (span_len is_space s); reflexivity.
Qed.

Lemma sub_ws_step_space f limit prev c s :
  limit <> Some 0 -> is_space c = true ->
  sub_loop (S f) ws_run [space] limit prev (c :: s) =
  space :: sub_loop f ws_run [space] (dec_limit limit)
                    (nth_error (c :: s) (span_len is_space s))
                    (drop_while is_space s).
Proof.
  intros Hl Hc. cbn [sub_loop]. rewrite rmatch_ws_run.
  cbn [span_len]. rewrite Hc.
  replace (skipn (S (span_len is_space s)) (c :: s)) with (drop_while is_space s)
    by (simpl; symmetry; apply skipn_span_len).
  destruct limit as [[|n]|]; [congruence | reflexivity | reflexivity].
Qed.

Lemma sub_ws_step_other f limit prev c s :
  limit <> Some 0 -> is_space c = false ->
  sub_loop (S f) ws_run [space] limit prev (c :: s) =
  c :: sub_loop f ws_run [space] limit (Some c) s.
Proof.
  intros Hl Hc. cbn [sub_loop]. rewrite rmatch_ws_run.
  cbn [span_len]. rewrite Hc.
  destruct limit as [[|n]|]; [congruence | reflexivity | reflexivity].
Qed.

Lemma sub_ws_nil f prev : sub_loop f ws_run [space] None prev [] = [].
Proof. destruct f; reflexivity. Qed.

Lemma sub_ws_starts f prev s :
  starts_with_space s = false ->
  starts_with_space (sub_loop f ws_run [space] None prev s) = false.
Proof.
  intros H. destruct f; [exact H|]. destruct s as [|c s]; [reflexivity|].
  simpl in H. rewrite sub_ws_step_other by (congruence || assumption).
  exact H.
Qed.

Lemma sub_ws_collapsed f : forall prev s,
  List.length s < f ->
  collapsed (sub_loop f ws_run [space] None prev s) = true.
Proof.
  induction f as [|f IH]; intros prev s Hlen; [lia|].
  destruct s as [|c s]; [reflexivity|]. simpl in Hlen.
  destruct (is_space c) eqn:Hc.
  - rewrite sub_ws_step_space by (congruence || assumption).
    pose proof (drop_while_length is_space s) as Hd.
    pose proof (drop_while_starts is_space s) as Hs.
    set (prev' := nth_error _ _). simpl dec_limit.
    assert (Hst : starts_with_space
                    (sub_loop f ws_run [space] None prev' (drop_while is_space s))
                  = false).
    { apply sub_ws_starts. destruct (drop_while is_space s); [reflexivity | exact Hs]. }
    assert (Hco := IH prev' (drop_while is_space s) ltac:(lia)).
    simpl collapsed. rewrite Hco, andb_true_r.
    change (is_space space) with true. cbv iota.
    destruct (sub_loop f ws_run [space] None prev' (drop_while is_space s));
      [reflexivity|].
    simpl in Hst. rewrite Hst. reflexivity.
  - rewrite sub_ws_step_other by (congruence || assumption).
    simpl collapsed. rewrite Hc. apply IH. lia.
Qed.

Lemma sub_ws_fixed f : forall prev s,
  List.length s < f -> collapsed s = true ->
  sub_loop f ws_run [space] None prev s = s.
Proof.
  induction f as [|f IH]; intros prev s Hlen Hco; [lia|].
  destruct s as [|c s]; [reflexivity|]. simpl in Hlen.
  pose proof (collapsed_tail _ _ Hco) as Ht.
  destruct (is_space c) eqn:Hc.
  - rewrite sub_ws_step_space by (congruence || assumption).
    simpl in Hco. rewrite Hc in Hco.
    apply andb_true_iff in Hco. destruct Hco as [Hco _].
    apply andb_true_iff in Hco. destruct Hco as [Hsp Hnx].
    apply Ascii.eqb_eq in Hsp. subst c.
    assert (Hdw : drop_while is_space s = s).
    { apply drop_while_fixed. destruct s; [exact I|].
      apply negb_true_iff in Hnx. exact Hnx. }
    rewrite Hdw. simpl dec_limit. rewrite IH by (lia || assumption).
    reflexivity.
  - rewrite sub_ws_step_other by (congruence || assumption).
    rewrite IH by (lia || assumption). reflexivity.
Qed.

(** *** Substitutions whose pattern starts with a newline *)

Lemma rmatch_nl_first ml re prev s i gs ge :
  match s with c :: _ => is_nl c = false | [] => True end ->
  rmatch ml (Cls is_nl One :: re) prev s i gs ge = None.
Proof.
  intros H. cbn [rmatch quant_bounds].
  assert (E : span_len is_nl s = 0).
  { destruct s as [|c s]; [reflexivity|]. simpl. rewrite H. reflexivity. }
  rewrite E. reflexivity.
Qed.

Lemma sub_nl_first_fixed re repl f : forall limit prev s,
  existsb is_nl s = false ->
  sub_loop f (Cls is_nl One :: re) repl limit prev s = s.
Proof.
  induction f as [|f IH]; intros limit prev s H; [reflexivity|].
  cbn [sub_loop].
  rewrite rmatch_nl_first.
  2:{ destruct s as [|c s]; [exact I|]. simpl in H.
      apply orb_false_iff in H. apply H. }
  destruct s as [|c s].
  - destruct limit as [[|n]|]; reflexivity.
  - simpl in H. apply orb_false_iff in H. destruct H as [_ H].
    rewrite (IH limit (Some c) s H).
    destruct limit as [[|n]|]; reflexivity.
Qed.

(** The cleaner is the whitespace substitution followed by [strip]: the
    two later substitutions find nothing to replace. *)
Lemma clean_text_eq text :
  clean_text text = strip (re_sub ws_run [space] text 0).
Proof.
  destruct text as [|c text]; [reflexivity|].
  unfold clean_text. change (lit " ") with [space].
  set (t := re_sub ws_run [space] (c :: text) 0).
  assert (Hco : collapsed t = true).
  { unfold t, re_sub. apply sub_ws_collapsed. lia. }
  pose proof (collapsed_no_nl _ Hco) as Hnl.
  unfold re_sub at 2. unfold page_footer_line. cbn [app].
  unfold re_sub at 1. unfold page_number_line.
  rewrite (sub_nl_first_fixed _ _ _ _ _ t Hnl).
  rewrite (sub_nl_first_fixed _ _ _ _ _ t Hnl).
  reflexivity.
Qed.

Lemma clean_text_collapsed text : collapsed (clean_text text) = true.
Proof.
  rewrite clean_text_eq. apply collapsed_strip.
  unfold re_sub. apply sub_ws_collapsed. lia.
Qed.

Lemma clean_text_fixed t :
  collapsed t = true -> starts_with_space t = false ->
  ends_with_space t = false -> clean_text t = t.
Proof.
  intros Hco Hs He. rewrite clean_text_eq. unfold re_sub.
  rewrite sub_ws_fixed by (lia || assumption).
  unfold strip. rewrite lstrip_fixed by exact Hs.
  unfold rstrip. unfold ends_with_space in He.
  rewrite drop_while_fixed, rev_involutive; [reflexivity|].
  destruct (rev t); [exact I | exact He].
Qed.

(* ================================================================= *)
(** ** The text cleaner: claims C5, C6, C10 *)

(** C5. The text cleaner is idempotent: for every input string [x],
    cleaning the cleaned text gives the cleaned text again. *)
Theorem clean_text_idempotent : forall x : str,
  clean_text (clean_text x) = clean_text x.
Proof.
  intros x. apply clean_text_fixed.
  - apply clean_text_collapsed.
  - rewrite clean_text_eq. apply strip_starts.
  - rewrite clean_text_eq. apply strip_ends.
Qed.

(** C10. For every input string the cleaned text contains no newline and
    no two whitespace characters next to each other, neither starts nor
    ends with whitespace, and the empty input is cleaned to the empty
    string. *)
Theorem clean_text_normal_form : forall x : str,
  existsb is_nl (clean_text x) = false
  /\ has_space_pair (clean_text x) = false
  /\ starts_with_space (clean_text x) = false
  /\ ends_with_space (clean_text x) = false
  /\ clean_text [] = [].
Proof.
  intros x. pose proof (clean_text_collapsed x) as Hco.
  repeat split.
  - apply collapsed_no_nl, Hco.
  - apply collapsed_no_pair, Hco.
  - rewrite clean_text_eq. apply strip_starts.
  - rewrite clean_text_eq. apply strip_ends.
Qed.

(** C6 (the code departs from the claim).  A line holding only a page
    number, and a line "Page N of M", both survive cleaning: the
    whitespace substitution runs first and leaves no newline for the two
    line patterns to match. *)
Theorem clean_text_keeps_page_lines :
  clean_text (nlit "Hello|42|World") = lit "Hello 42 World"
  /\ clean_text (nlit "Intro|Page 3 of 10|Body") = lit "Intro Page 3 of 10 Body".
Proof. split; vm_compute; reflexivity. Qed.

(* ================================================================= *)
(** ** The matcher: where group 1 lies *)

Lemma try_down_some {R} (cont : nat -> option R) lo : forall k r,
  try_down cont lo k = Some r ->
  exists j, lo <= j <= k /\ cont j = Some r.
Proof.
  induction k as [|k IH]; intros r H; simpl in H.
  - destruct (0 <? lo) eqn:E; [discriminate|].
    apply Nat.ltb_ge in E.
    destruct (cont 0) eqn:C; [|discriminate].
    exists 0. split; [lia | congruence].
  - destruct (S k <? lo) eqn:E; [discriminate|].
    apply Nat.ltb_ge in E.
    destruct (cont (S k)) eqn:C.
    + exists (S k). split; [lia | congruence].
    + destruct (IH r H) as [j [Hj Hc]]. exists j. split; [lia | exact Hc].
Qed.

Lemma rmatch_keeps_start ml : forall re prev s i gs ge e gs' ge',
  existsb opens_group re = false ->
  rmatch ml re prev s i gs ge = Some (e, gs', ge') -> gs' = gs.
Proof.
  induction re as [|a re IH]; intros prev s i gs ge e gs' ge' Hno H.
  - simpl in H. congruence.
  - simpl in Hno. apply orb_false_iff in Hno. destruct Hno as [Ha Hno].
    destruct a as [p q| | | |]; cbn [rmatch] in H.
    + destruct (quant_bounds q (span_len p s)) as [lo hi].
      apply try_down_some in H. destruct H as [j [_ H]]. eauto.
    + destruct (at_bol ml prev); [eauto | discriminate].
    + destruct (at_eol ml s); [eauto | discriminate].
    + discriminate Ha.
    + eauto.
Qed.

Lemma rmatch_end_weak ml : forall re prev s i gs ge e gs' ge',
  rmatch ml re prev s i gs ge = Some (e, gs', ge') -> ge' = ge \/ i <= ge'.
Proof.
  induction re as [|a re IH]; intros prev s i gs ge e gs' ge' H.
  - simpl in H. left. congruence.
  - destruct a as [p q| | | |]; cbn [rmatch] in H.
    + destruct (quant_bounds q (span_len p s)) as [lo hi].
      apply try_down_some in H. destruct H as [j [_ H]].
      apply IH in H. lia.
    + destruct (at_bol ml prev); [eauto | discriminate].
    + destruct (at_eol ml s); [eauto | discriminate].
    + eauto.
    + apply IH in H. lia.
Qed.

Lemma rmatch_end_after ml : forall re prev s i gs ge e gs' ge',
  existsb closes_group re = true ->
  rmatch ml re prev s i gs ge = Some (e, gs', ge') -> i <= ge'.
Proof.
  induction re as [|a re IH]; intros prev s i gs ge e gs' ge' Hc H.
  - discriminate Hc.
  - destruct a as [p q| | | |]; cbn [rmatch] in H; simpl in Hc.
    + destruct (quant_bounds q (span_len p s)) as [lo hi].
      apply try_down_some in H. destruct H as [j [_ H]].
      apply IH in H; [lia | exact Hc].
    + destruct (at_bol ml prev); [eauto | discriminate].
    + destruct (at_eol ml s); [eauto | discriminate].
    + eauto.
    + apply rmatch_end_weak in H. lia.
Qed.

Lemma span_len_pos p s :
  0 < span_len p s -> exists c t, s = c :: t /\ p c = true.
Proof.
  destruct s as [|c t]; simpl; [lia|].
  destruct (p c) eqn:E; [|lia]. intros _. exists c, t. auto.
Qed.

Lemma heading_group_truthy pat line g :
  heading_shape pat ->
  match_group1 true pat line = Some g -> truthy (Some (strip g)) = true.
Proof.
  intros [cl q rest Hq Hcl Hno Hcls]. unfold match_group1.
  destruct (rmatch true _ None line 0 0 0) as [[[e gs'] ge']|] eqn:E;
    [|discriminate].
  intros G. injection G as <-.
  cbn [rmatch at_bol quant_bounds] in E.
  apply try_down_some in E. destruct E as [j0 [_ E]].
  cbn [rmatch] in E.
  destruct (quant_bounds q (span_len cl (skipn j0 line))) as [lo hi] eqn:B.
  apply try_down_some in E. destruct E as [j1 [Hj1 E]].
  assert (Hlo : lo = 1 /\ hi <= span_len cl (skipn j0 line)).
  { destruct Hq; subst q; unfold quant_bounds in B; injection B as <- <-;
      (split; [reflexivity | destruct (span_len cl (skipn j0 line)); lia]). }
  destruct Hlo as [-> Hhi].
  destruct (span_len_pos cl (skipn j0 line) ltac:(lia)) as [c [t [Hs Hc]]].
  pose proof (rmatch_keeps_start _ _ _ _ _ _ _ _ _ _ Hno E) as ->.
  pose proof (rmatch_end_after _ _ _ _ _ _ _ _ _ _ Hcls E) as Hge.
  simpl in Hge. change (0 + j0) with j0. rewrite Hs.
  replace (ge' - j0) with (S (ge' - j0 - 1)) by lia.
  cbn [firstn]. unfold strip, lstrip. cbn [drop_while].
  rewrite (Hcl c Hc). rewrite rstrip_cons_keep by exact (Hcl c Hc).
  reflexivity.
Qed.

Lemma digit_not_space c : is_digit c = true -> is_space c = false.
Proof. destruct c as [[] [] [] [] [] [] [] []]; vm_compute; congruence. Qed.

Lemma upper_not_space c : is_upper c = true -> is_space c = false.
Proof. destruct c as [[] [] [] [] [] [] [] []]; vm_compute; congruence. Qed.

Lemma lower_not_space c : is_lower c = true -> is_space c = false.
Proof. destruct c as [[] [] [] [] [] [] [] []]; vm_compute; congruence. Qed.

#[local] Hint Resolve digit_not_space upper_not_space lower_not_space : heading.

Lemma section_patterns_shape : Forall heading_shape section_patterns.
Proof.
  unfold section_patterns.
  repeat (apply Forall_cons; [heading_shape_tac|]). apply Forall_nil.
Qed.

Lemma subsection_patterns_shape : Forall heading_shape subsection_patterns.
Proof.
  unfold subsection_patterns.
  repeat (apply Forall_cons; [heading_shape_tac|]). apply Forall_nil.
Qed.

(* ================================================================= *)
(** ** The heading classifier: claims C4, C7 *)

Lemma scan_section_found pats line section :
  truthy section = true -> scan_section pats line section = section.
Proof.
  intros H. induction pats as [|pat rest IH]; simpl; [reflexivity|].
  rewrite H. simpl. destruct (match_group1 true pat line); exact IH.
Qed.

Lemma scan_section_well_set pats line section :
  Forall heading_shape pats -> well_set section ->
  well_set (scan_section pats line section).
Proof.
  intros Hp Hs. induction Hp as [|pat rest Hpat _ IH]; simpl; [exact Hs|].
  destruct (match_group1 true pat line) as [g|] eqn:E; [|exact IH].
  destruct (truthy section); simpl; [exact IH|].
  right. exact (heading_group_truthy _ _ _ Hpat E).
Qed.

Lemma scan_sub_section_cases pats line section sub_section :
  scan_sub_section pats line section sub_section = sub_section
  \/ (truthy section = true
      /\ exists pat g, In pat pats
                       /\ match_group1 true pat line = Some g
                       /\ scan_sub_section pats line section sub_section
                          = Some (strip g)).
Proof.
  induction pats as [|pat rest IH]; simpl; [left; reflexivity|].
  destruct (match_group1 true pat line) as [g|] eqn:E.
  - destruct (negb (truthy sub_section) && truthy section) eqn:C.
    + right. apply andb_true_iff in C. destruct C as [_ C].
      split; [exact C|]. exists pat, g. auto.
    + destruct IH as [IH|[Ht [p [g' [Hin [Hm Hr]]]]]]; [left; exact IH|].
      right. split; [exact Ht|]. exists p, g'. auto.
  - destruct IH as [IH|[Ht [p [g' [Hin [Hm Hr]]]]]]; [left; exact IH|].
    right. split; [exact Ht|]. exists p, g'. auto.
Qed.

Lemma strip_nonempty_fixed raw c t : strip raw = c :: t -> strip (c :: t) = c :: t.
Proof. intros <-. apply strip_idem. Qed.

(** The invariant of the scan over the lines. *)
Lemma scan_lines_invariant : forall lines section sub,
  fold_left scan_line lines (None, None) = (section, Some sub) ->
  truthy section = true
  /\ exists before line after pat g,
       lines = before ++ line :: after
       /\ In pat subsection_patterns
       /\ match_group1 true pat (strip line) = Some g
       /\ sub = strip g
       /\ truthy (scan_section section_patterns (strip line)
                    (fst (fold_left scan_line before (None, None)))) = true.
Proof.
  induction lines as [|x lines IH] using rev_ind; intros section sub H.
  - discriminate H.
  - rewrite fold_left_app in H. cbn [fold_left] in H.
    destruct (fold_left scan_line lines (None, None)) as [s0 b0] eqn:F.
    assert (Old : b0 = Some sub -> section = s0 ->
                  truthy section = true
                  /\ exists before line after pat g,
                       lines ++ [x] = before ++ line :: after
                       /\ In pat subsection_patterns
                       /\ match_group1 true pat (strip line) = Some g
                       /\ sub = strip g
                       /\ truthy (scan_section section_patterns (strip line)
                            (fst (fold_left scan_line before (None, None))))
                          = true).
    { intros -> ->.
      destruct (IH s0 sub eq_refl) as [Ht [bf [ln [af [pat [g [E R]]]]]]].
      split; [exact Ht|]. exists bf, ln, (af ++ [x]), pat, g.
      split; [|exact R]. rewrite E, <- app_assoc. reflexivity. }
    unfold scan_line in H. destruct (strip x) as [|c t] eqn:Sx.
    + injection H as <- ->. apply Old; reflexivity.
    + unfold classify_line in H. cbn [fst snd] in H.
      remember (scan_section section_patterns (c :: t) s0) as s1 eqn:Hs1.
      remember (scan_sub_section subsection_patterns (c :: t) s1 b0) as b1 eqn:Hb1.
      injection H as Hs Hb. subst section b1.
      destruct (scan_sub_section_cases subsection_patterns (c :: t) s1 b0)
        as [Same|[Ht [pat [g [Hin [Hm Hr]]]]]].
      * rewrite Same in Hb. subst b0.
        destruct (IH s0 sub eq_refl) as [Ht0 _].
        rewrite scan_section_found in Hs1 by exact Ht0.
        apply Old; congruence.
      * rewrite Hr in Hb. injection Hb as <-.
        split; [exact Ht|].
        exists lines, x, [], pat, g. rewrite Sx, F. cbn [fst].
        rewrite <- Hs1. auto.
Qed.

(** C4. The classifier never returns a sub-section without a section: when
    [sub_section] is set, [section] is set, one of the sub-section
    patterns matched one of the scanned lines, and at that line the
    section had already been found. *)
Theorem sub_section_requires_section : forall text section sub,
  extract_sections_and_subsections text = (section, Some sub) ->
  section <> None
  /\ exists before line after pat g,
       firstn 5 (split_nl text) = before ++ line :: after
       /\ In pat subsection_patterns
       /\ match_group1 true pat (strip line) = Some g
       /\ sub = strip g
       /\ truthy (scan_section section_patterns (strip line)
                    (fst (fold_left scan_line before (None, None)))) = true.
Proof.
  intros text section sub H.
  destruct (scan_lines_invariant _ _ _ H) as [Ht R].
  split; [|exact R]. intros ->. discriminate Ht.
Qed.

Lemma sub_section_requires_section_witness :
  (Some (lit "OVERVIEW") : option str) <> None
  /\ exists before line after pat g,
       firstn 5 (split_nl (nlit "OVERVIEW|1.1 Key Findings"))
       = before ++ line :: after
       /\ In pat subsection_patterns
       /\ match_group1 true pat (strip line) = Some g
       /\ lit "1.1 Key Findings" = strip g
       /\ truthy (scan_section section_patterns (strip line)
                    (fst (fold_left scan_line before (None, None)))) = true.
Proof.
  apply (sub_section_requires_section (nlit "OVERVIEW|1.1 Key Findings")).
  vm_compute. reflexivity.
Defined.

Lemma scan_lines_inspected : forall lines st,
  fold_left scan_line lines st
  = fold_left classify_line (filter nonempty (map strip lines)) st.
Proof.
  induction lines as [|x lines IH]; intros st; [reflexivity|].
  cbn [fold_left map filter]. unfold scan_line at 2.
  destruct (strip x) as [|c t]; cbn [nonempty fold_left]; apply IH.
Qed.

Lemma filter_length_bound {A} (f : A -> bool) l :
  List.length (filter f l) <= List.length l.
Proof.
  induction l as [|x l IH]; simpl; [lia|]. destruct (f x); simpl; lia.
Qed.

Lemma firstn_succ_prefix {A} : forall n (l : list A),
  exists r, firstn (S n) l = firstn n l ++ r.
Proof.
  induction n as [|n IH]; intros l.
  - exists (firstn 1 l). reflexivity.
  - destruct l as [|x l]; [exists []; reflexivity|].
    destruct (IH l) as [r Hr]. exists r.
    change (firstn (S (S n)) (x :: l)) with (x :: firstn (S n) l).
    rewrite Hr. reflexivity.
Qed.

Lemma filter_firstn_prefix {A} (f : A -> bool) : forall n l,
  exists r, firstn n (filter f l) = filter f (firstn n l) ++ r.
Proof.
  induction n as [|n IH]; intros l; [exists []; reflexivity|].
  destruct l as [|x l]; [exists []; reflexivity|].
  destruct (IH l) as [r Hr].
  change (firstn (S n) (x :: l)) with (x :: firstn n l).
  cbn [filter]. destruct (f x).
  - exists r. change (firstn (S n) (x :: filter f l))
      with (x :: firstn n (filter f l)).
    rewrite Hr. reflexivity.
  - destruct (firstn_succ_prefix n (filter f l)) as [r' Hr'].
    exists (r ++ r'). rewrite Hr', Hr, app_assoc. reflexivity.
Qed.

(** C7 as the claim words it fails: five empty lines before a heading use
    up the limit, and the heading on the sixth line is not looked at. *)
Lemma first5_nonempty_counterexample :
  extract_sections_and_subsections (nlit "|||||OVERVIEW") = (None, None)
  /\ classify_first5_nonempty (nlit "|||||OVERVIEW")
     = (Some (lit "OVERVIEW"), None)
  /\ extract_sections_and_subsections (nlit "|||||OVERVIEW")
     <> classify_first5_nonempty (nlit "|||||OVERVIEW").
Proof. vm_compute. repeat split; discriminate. Qed.

(** C7, amended.  The classifier takes the first five lines of the text,
    empty ones included, and inspects those of them that are not empty
    once trimmed: at most five lines, each among the first five non-empty
    trimmed lines of the text. *)
Theorem classifier_inspects_first_five_lines : forall text : str,
  extract_sections_and_subsections text
  = fold_left classify_line (inspected_lines text) (None, None)
  /\ List.length (inspected_lines text) <= 5
  /\ exists rest, first5_nonempty_lines text = inspected_lines text ++ rest.
Proof.
  intros text. unfold extract_sections_and_subsections, inspected_lines,
    first5_nonempty_lines.
  split; [apply scan_lines_inspected|]. split.
  - eapply Nat.le_trans; [apply filter_length_bound|].
    rewrite length_map. apply firstn_le_length.
  - rewrite <- firstn_map. apply filter_firstn_prefix.
Qed.

(* ================================================================= *)
(** ** Cleaning never lengthens the trimmed text *)

Lemma collapse_in_run s : collapse true s = collapse false (drop_while is_space s).
Proof.
  induction s as [|c r IH]; [reflexivity|].
  cbn [collapse drop_while]. destruct (is_space c) eqn:E; [exact IH|].
  cbn [collapse]. rewrite E. reflexivity.
Qed.

Lemma sub_ws_collapse f : forall prev s,
  List.length s < f -> sub_loop f ws_run [space] None prev s = collapse false s.
Proof.
  induction f as [|f IH]; intros prev s Hlen; [lia|].
  destruct s as [|c s]; [reflexivity|]. simpl in Hlen.
  cbn [collapse]. destruct (is_space c) eqn:Hc.
  - rewrite sub_ws_step_space by (congruence || assumption).
    pose proof (drop_while_length is_space s).
    simpl dec_limit. rewrite IH by lia. rewrite collapse_in_run. reflexivity.
  - rewrite sub_ws_step_other by (congruence || assumption).
    rewrite IH by lia. reflexivity.
Qed.

Lemma collapse_starts s :
  starts_with_space s = false -> starts_with_space (collapse false s) = false.
Proof.
  destruct s as [|c r]; [reflexivity|]. intros H.
  cbn [starts_with_space] in H. cbn [collapse]. rewrite H. exact H.
Qed.

Lemma lstrip_collapse s : lstrip (collapse false s) = collapse false (lstrip s).
Proof.
  assert (K : forall t, lstrip (collapse false (drop_while is_space t))
                        = collapse false (drop_while is_space t)).
  { intros t. apply lstrip_fixed, collapse_starts.
    pose proof (drop_while_starts is_space t) as H.
    destruct (drop_while is_space t); [reflexivity | exact H]. }
  destruct s as [|c r]; [reflexivity|].
  unfold lstrip at 2. cbn [collapse drop_while].
  destruct (is_space c) eqn:E.
  - unfold lstrip. cbn [drop_while]. change (is_space space) with true.
    cbv iota. rewrite collapse_in_run. apply K.
  - cbn [collapse]. rewrite E. unfold lstrip. cbn [drop_while].
    rewrite E. reflexivity.
Qed.

Lemma drop_while_app p : forall l m : str,
  drop_while p (l ++ m)
  = match drop_while p l with
    | [] => drop_while p m
    | r => r ++ m
    end.
Proof.
  induction l as [|c l IH]; intros m; [reflexivity|].
  cbn [app drop_while]. destruct (p c); [apply IH | reflexivity].
Qed.

Lemma rstrip_cons c r :
  rstrip (c :: r)
  = if nonempty (rstrip r) || negb (is_space c) then c :: rstrip r else [].
Proof.
  unfold rstrip. cbn [rev]. rewrite drop_while_app.
  destruct (drop_while is_space (rev r)) as [|d x].
  - cbn [drop_while rev nonempty orb]. destruct (is_space c); reflexivity.
  - rewrite rev_app_distr. cbn [rev app].
    destruct (rev x ++ [d]) eqn:E; [|reflexivity].
    apply app_eq_nil in E. destruct E as [_ E]. discriminate E.
Qed.

Lemma rstrip_collapse_length : forall s in_run,
  List.length (rstrip (collapse in_run s)) <= List.length (rstrip s).
Proof.
  induction s as [|c r IH]; intros in_run; [simpl; lia|].
  cbn [collapse]. rewrite (rstrip_cons c r).
  destruct (is_space c) eqn:E; cbn [negb orb].
  - rewrite orb_false_r.
    assert (Hmono : List.length (rstrip (collapse true r))
                    <= List.length (if nonempty (rstrip r)
                                    then c :: rstrip r else [])).
    { specialize (IH true). destruct (rstrip r); simpl in *; lia. }
    destruct in_run; [exact Hmono|].
    rewrite rstrip_cons. change (is_space space) with true.
    cbn [negb]. rewrite orb_false_r.
    specialize (IH true).
    destruct (rstrip (collapse true r)); cbn [nonempty]; [simpl; lia|].
    destruct (rstrip r); simpl in *; lia.
  - rewrite orb_true_r. rewrite rstrip_cons, E. cbn [negb].
    rewrite orb_true_r. specialize (IH false). simpl. lia.
Qed.

Lemma clean_text_length text :
  List.length (clean_text text) <= List.length (strip text).
Proof.
  rewrite clean_text_eq. unfold re_sub.
  rewrite sub_ws_collapse by lia.
  unfold strip. rewrite lstrip_collapse. apply rstrip_collapse_length.
Qed.

(* ================================================================= *)
(** ** The paragraph segmenter: claims C2, C3 *)

(** C2 as the claim words it fails: a line with a run of spaces is long
    enough before cleaning and is emitted with a cleaned text of three
    characters. *)
Lemma kept_iff_cleaned_long_counterexample :
  ~ kept_iff_cleaned_long [lit "a         b"]
  /\ List.length (clean_text (join [space] [lit "a         b"])) = 3
  /\ flush [lit "a         b"] = [ParagraphBlock None None (lit "a b")]
  /\ analyze_content_blocks (glyphs 100 "a         b")
     = [ParagraphBlock None None (lit "a b")].
Proof.
  assert (F : flush [lit "a         b"] = [ParagraphBlock None None (lit "a b")])
    by (vm_compute; reflexivity).
  assert (L : List.length (clean_text (join [space] [lit "a         b"])) = 3)
    by (vm_compute; reflexivity).
  split; [|split; [exact L|split; [exact F|vm_compute; reflexivity]]].
  unfold kept_iff_cleaned_long. rewrite F, L. intros [H _].
  assert (C : 10 < 3) by (apply H; discriminate). lia.
Qed.

(** C2, amended.  A flushed buffer is emitted as one paragraph block
    exactly when its joined text, trimmed but not yet cleaned, is longer
    than ten characters, and is dropped otherwise.  The cleaned text is
    never longer than the trimmed text, so a buffer whose cleaned text
    is longer than ten characters is always emitted. *)
Theorem paragraph_kept_iff_trimmed_long : forall buf : list str,
  let paragraph_text := join [space] buf in
  (flush buf <> [] <-> 10 < List.length (strip paragraph_text))
  /\ (flush buf = [] <-> List.length (strip paragraph_text) <= 10)
  /\ (flush buf = []
      \/ flush buf
         = [ParagraphBlock (fst (extract_sections_and_subsections paragraph_text))
                           (snd (extract_sections_and_subsections paragraph_text))
                           (clean_text paragraph_text)])
  /\ List.length (clean_text paragraph_text) <= List.length (strip paragraph_text).
Proof.
  intros buf paragraph_text. unfold flush. fold paragraph_text.
  destruct (extract_sections_and_subsections paragraph_text) as [s ss].
  cbn [fst snd].
  destruct (10 <? List.length (strip paragraph_text)) eqn:E.
  - apply Nat.ltb_lt in E. repeat split; intros; try lia; try discriminate.
    + right. reflexivity.
    + apply clean_text_length.
  - apply Nat.ltb_ge in E. repeat split; intros; try lia; try congruence.
    + left. reflexivity.
    + apply clean_text_length.
Qed.

Lemma seg_step_buffer st ln :
  current_y_group st = None \/ current_paragraph st <> [] ->
  current_y_group (seg_step st ln) = None
  \/ current_paragraph (seg_step st ln) <> [].
Proof.
  intros H. destruct ln as [y chars]. unfold seg_step.
  destruct (line_text chars) as [|c t]; [exact H|].
  right. cbn [current_paragraph]. intros E.
  apply app_eq_nil in E. destruct E as [_ E]. discriminate E.
Qed.

Lemma seg_after_buffer lines :
  current_y_group (seg_after lines) = None
  \/ current_paragraph (seg_after lines) <> [].
Proof.
  unfold seg_after.
  induction lines as [|ln lines IH] using rev_ind; [left; reflexivity|].
  rewrite fold_left_app. cbn [fold_left]. apply seg_step_buffer, IH.
Qed.

(* ================================================================= *)
(** ** The chart detector: claim C8 *)

Lemma nearby_loop_caption y1 : forall cs nearby_text,
  nearby_loop y1 cs nearby_text = nearby_text ++ caption y1 cs.
Proof.
  unfold caption.
  induction cs as [|c cs IH]; intros acc; cbn [nearby_loop filter].
  - cbn. rewrite app_nil_r. reflexivity.
  - destruct (near y1 c); [|apply IH].
    rewrite IH. cbn [map List.concat]. rewrite app_assoc. reflexivity.
Qed.

Lemma charts_loop_eq chars : forall images i charts,
  charts_loop i images chars charts
  = charts ++ flat_map (chart_near top_edge chars)
                       (combine (seq i (List.length images)) images).
Proof.
  induction images as [|image images IH]; intros i charts.
  - cbn. rewrite app_nil_r. reflexivity.
  - cbn [charts_loop List.length seq combine flat_map chart_near].
    unfold chart_like.
    destruct (Qlt_bool 100 (get (i_width image) 0)
              && Qlt_bool 100 (get (i_height image) 0)).
    + rewrite IH, nearby_loop_caption, <- app_assoc. reflexivity.
    + apply IH.
Qed.

(** C8 as the claim words it fails: text just under the box of an image
    is within 50 units of its bottom edge and is not taken as caption. *)
Lemma captions_near_bottom_edge_counterexample :
  ~ captions_near_bottom_edge figure_page
  /\ caption (bottom_edge figure_image) (page_chars figure_page) = lit "Fig"
  /\ caption (top_edge figure_image) (page_chars figure_page) = [].
Proof.
  split; [|split; vm_compute; reflexivity].
  intros H. specialize (H []). vm_compute in H. discriminate H.
Qed.

(** C8, amended.  For every image wider and higher than 100 units the
    caption is the concatenation of the page characters for which
    [abs(text_y - y1)], computed in double precision from the vertical
    start of the character and the [y1] coordinate of the image, is less
    than 50; [y1] is the top edge of the image box when the origin is at
    the bottom left, and [height] stands in when [y1] is missing.  The
    description carries the first 100 characters of the caption and an
    ellipsis when the caption is not empty, and the bare label
    otherwise; other images give no block. *)
Theorem chart_caption_near_top_edge : forall (pg : page) (log : Eff.log),
  detect_charts_in_page pg log
  = (Ok (flat_map (chart_near top_edge (page_chars pg))
                  (enumerate0 (page_images pg))), log)
  /\ (forall i, chart_description i [] = lit "Chart/Image " ++ str_of_nat (i + 1))
  /\ (forall i c cap,
        chart_description i (c :: cap)
        = lit "Chart/Image " ++ str_of_nat (i + 1) ++ lit " - "
          ++ firstn 100 (c :: cap) ++ lit "...")
  /\ (forall edge cs,
        caption edge cs
        = List.concat
            (map c_text
               (filter (fun c =>
                          Dbl.ltb (Dbl.abs (Dbl.sub (Dbl.of_Q (c_y0 c))
                                                    (Dbl.of_Q edge)))
                                  (Dbl.of_Q 50)) cs))).
Proof.
  intros pg log. split; [|split; [|split]; reflexivity].
  unfold detect_charts_in_page, try_except, ret, enumerate0.
  rewrite charts_loop_eq. reflexivity.
Qed.

(** The subtraction is the one of the floats: the doubles nearest to
    50.3 and 0.3 differ by exactly 50, so a character that starts at
    50.3 is not near an edge at 0.3; one that starts at 50.2 is. *)
Lemma near_of_floats :
  Dbl.sub (Dbl.of_Q (503 # 10)) (Dbl.of_Q (3 # 10)) = Dbl.of_Q 50
  /\ near (float_literal (3 # 10))
          {| c_text := lit "n"; c_y0 := float_literal (503 # 10) |} = false
  /\ near (float_literal (3 # 10))
          {| c_text := lit "y"; c_y0 := float_literal (502 # 10) |} = true
  /\ Qlt_bool (Qabs (float_literal (503 # 10) - float_literal (3 # 10))) 50
     = true.
Proof. repeat split; vm_compute; reflexivity. Qed.

(* ================================================================= *)
(** ** What the extractors produce *)

Lemma flush_paragraphs buf :
  Forall (fun b => is_paragraph b = true /\ well_set (block_section b)) (flush buf).
Proof.
  unfold flush. destruct (10 <? _); [|constructor].
  destruct (extract_sections_and_subsections (join [space] buf)) as [s ss] eqn:E.
  constructor; [|constructor]. split; [reflexivity|]. cbn [block_section].
  change s with (fst (s, ss)). rewrite <- E. clear E.
  unfold extract_sections_and_subsections.
  generalize (firstn 5 (split_nl (join [space] buf))).
  intros lines. induction lines as [|x lines IH] using rev_ind.
  - left. reflexivity.
  - rewrite fold_left_app. cbn [fold_left]. unfold scan_line.
    destruct (strip x) as [|c t]; [exact IH|].
    unfold classify_line. cbn [fst].
    apply scan_section_well_set; [apply section_patterns_shape | exact IH].
Qed.

Lemma seg_step_paragraphs (P : block -> Prop) st ln :
  (forall buf, Forall P (flush buf)) ->
  Forall P (content_blocks st) -> Forall P (content_blocks (seg_step st ln)).
Proof.
  intros HF H. destruct ln as [y cs]. unfold seg_step.
  destruct (line_text cs) as [|c t]; [exact H|].
  cbn [content_blocks].
  destruct (gap_exceeded y (current_y_group st)); [|exact H].
  destruct (current_paragraph st) eqn:B; [exact H|].
  cbn [content_blocks]. apply Forall_app. split; [exact H | apply HF].
Qed.

Lemma analyze_content_blocks_paragraphs text_objects :
  Forall (fun b => is_paragraph b = true /\ well_set (block_section b))
         (analyze_content_blocks text_objects).
Proof.
  unfold analyze_content_blocks. destruct text_objects as [|c0 cs]; [constructor|].
  set (P := fun b => is_paragraph b = true /\ well_set (block_section b)).
  assert (K : forall lines, Forall P (content_blocks (fold_left seg_step lines seg_init))).
  { induction lines as [|ln lines IH] using rev_ind; [constructor|].
    rewrite fold_left_app. cbn [fold_left].
    apply seg_step_paragraphs; [apply flush_paragraphs | exact IH]. }
  match goal with |- context [fold_left seg_step ?l seg_init] =>
    specialize (K l); set (st := fold_left seg_step l seg_init) in * end.
  destruct (current_paragraph st); [exact K|].
  apply Forall_app. split; [exact K | apply flush_paragraphs].
Qed.

Lemma tables_loop_fresh page_num : forall dfs i tables,
  Forall (fun b => is_table b = true /\ fresh b) tables ->
  Forall (fun b => is_table b = true /\ fresh b) (tables_loop page_num i dfs tables).
Proof.
  induction dfs as [|df dfs IH]; intros i tables H; [exact H|].
  cbn [tables_loop]. destruct (df_empty df); [apply IH, H|].
  destruct (filter row_has_content df); [apply IH, H|].
  apply IH, Forall_app. split; [exact H|].
  constructor; [|constructor]. repeat split.
Qed.

Lemma charts_fresh cs images :
  Forall (fun b => is_chart b = true /\ fresh b)
         (flat_map (chart_near top_edge cs) (enumerate0 images)).
Proof.
  unfold enumerate0. generalize 0 as i.
  induction images as [|image images IH]; intros i; [constructor|].
  cbn [List.length seq combine flat_map]. apply Forall_app. split; [|apply IH].
  unfold chart_near. destruct (chart_like image); [|constructor].
  constructor; [|constructor]. repeat split.
Qed.

(* ================================================================= *)
(** ** The context propagator: claim C1 *)

Lemma nearest_heading_find blocks :
  Forall (fun b => well_set (block_section b)) blocks ->
  nearest_heading blocks = option_map heading (find section_set blocks).
Proof.
  induction 1 as [|b blocks Hb _ IH]; [reflexivity|].
  cbn [nearest_heading find]. unfold section_set at 1.
  destruct Hb as [Hb|Hb].
  - rewrite Hb. exact IH.
  - destruct (block_section b) as [s|] eqn:E; [|discriminate Hb].
    rewrite Hb. cbn [option_map]. unfold heading. rewrite E. reflexivity.
Qed.

Lemma heading_set_context b s ss : heading (set_context b s ss) = (s, ss).
Proof. destruct b; reflexivity. Qed.

Lemma assign_context_heading text_blocks b :
  Forall (fun p => well_set (block_section p)) text_blocks ->
  fresh b ->
  heading (assign_context text_blocks b) = inherited_heading text_blocks.
Proof.
  intros Hw [Hs Hss]. unfold assign_context, inherited_heading.
  rewrite nearest_heading_find by (apply Forall_rev, Hw).
  destruct (find section_set (rev text_blocks)) as [p|]; cbn [option_map].
  - destruct (heading p) as [s ss] eqn:E. apply heading_set_context.
  - unfold heading. rewrite Hs, Hss. reflexivity.
Qed.

Lemma assign_context_kind text_blocks b :
  is_table (assign_context text_blocks b) = is_table b
  /\ is_chart (assign_context text_blocks b) = is_chart b.
Proof.
  unfold assign_context.
  destruct (nearest_heading (rev text_blocks)) as [[s ss]|]; destruct b; auto.
Qed.

Lemma extract_tables_total pdf_path read_pdf page_num log :
  exists tables log',
    extract_tables_from_page pdf_path read_pdf page_num log = (Ok tables, log')
    /\ Forall (fun b => is_table b = true /\ fresh b) tables
    /\ (forall e, read_pdf pdf_path (str_of_nat page_num) = Raise e ->
                  tables = []).
Proof.
  unfold extract_tables_from_page, try_except, bind, call, ret, logger_warning.
  destruct (read_pdf pdf_path (str_of_nat page_num)) as [dfs|e].
  - eexists _, _. split; [reflexivity|]. split.
    + apply tables_loop_fresh. constructor.
    + intros e H. discriminate H.
  - eexists _, _. split; [reflexivity|]. split; [constructor | reflexivity].
Qed.

Lemma Forall_assign text_blocks (kind : block -> bool) bs :
  Forall (fun p => well_set (block_section p)) text_blocks ->
  (forall b, kind (assign_context text_blocks b) = kind b) ->
  Forall (fun b => kind b = true /\ fresh b) bs ->
  Forall (fun b => kind b = true
                   /\ heading b = inherited_heading text_blocks)
         (map (assign_context text_blocks) bs).
Proof.
  intros Hw Hk H. induction H as [|b bs [Hb Hf] _ IH]; [constructor|].
  cbn [map]. constructor; [|exact IH].
  split; [rewrite Hk; exact Hb | apply assign_context_heading; assumption].
Qed.

Lemma assign_context_inherit text_blocks b :
  Forall (fun p => well_set (block_section p)) text_blocks ->
  fresh b ->
  assign_context text_blocks b = inherit text_blocks b.
Proof.
  intros Hw [Hs Hss]. unfold assign_context, inherit, inherited_heading.
  rewrite nearest_heading_find by (apply Forall_rev, Hw).
  destruct (find section_set (rev text_blocks)) as [p|]; cbn [option_map].
  - destruct (heading p) as [s ss]. reflexivity.
  - cbn [fst snd]. destruct b; cbn in Hs, Hss; subst; reflexivity.
Qed.

Lemma map_assign_inherit text_blocks (kind : block -> bool) bs :
  Forall (fun p => well_set (block_section p)) text_blocks ->
  Forall (fun b => kind b = true /\ fresh b) bs ->
  map (assign_context text_blocks) bs = map (inherit text_blocks) bs.
Proof.
  intros Hw H. induction H as [|b bs [_ Hf] _ IH]; [reflexivity|].
  cbn [map]. rewrite IH, assign_context_inherit by assumption. reflexivity.
Qed.

Lemma process_page_steps pdf_path read_pdf page_num pg (log : Eff.log) :
  process_page pdf_path read_pdf (page_num, Ok pg) log
  = let text_blocks := analyze_content_blocks (page_chars pg) in
    match extract_tables_from_page pdf_path read_pdf page_num
            (log ++ [(INFO, lit "Processing page " ++ str_of_nat page_num)]) with
    | (Ok tables, log1) =>
        match detect_charts_in_page pg log1 with
        | (Ok charts, log') =>
            (Ok (page_num,
                 text_blocks ++ map (assign_context text_blocks) tables
                 ++ map (assign_context text_blocks) charts), log')
        | (Raise e, log') => (Raise e, log')
        end
    | (Raise e, log1) => (Raise e, log1)
    end.
Proof. reflexivity. Qed.

Lemma detect_charts_total pg log :
  detect_charts_in_page pg log
  = (Ok (flat_map (chart_near top_edge (page_chars pg))
                  (enumerate0 (page_images pg))), log).
Proof.
  unfold detect_charts_in_page, try_except, ret, enumerate0.
  rewrite charts_loop_eq. reflexivity.
Qed.

Lemma process_page_result pdf_path read_pdf page_num pg (log : Eff.log) :
  let text_blocks := analyze_content_blocks (page_chars pg) in
  exists tables charts log1 log',
    extract_tables_from_page pdf_path read_pdf page_num
      (log ++ [(INFO, lit "Processing page " ++ str_of_nat page_num)])
    = (Ok tables, log1)
    /\ detect_charts_in_page pg log1 = (Ok charts, log')
    /\ process_page pdf_path read_pdf (page_num, Ok pg) log
       = (Ok (page_num,
              text_blocks ++ map (inherit text_blocks) tables
              ++ map (inherit text_blocks) charts), log')
    /\ Forall (fun b => is_table b = true /\ fresh b) tables
    /\ Forall (fun b => is_chart b = true /\ fresh b) charts
    /\ (forall e, read_pdf pdf_path (str_of_nat page_num) = Raise e ->
                  tables = []).
Proof.
  intros text_blocks.
  assert (Hw : Forall (fun p => well_set (block_section p)) text_blocks).
  { eapply Forall_impl; [|apply analyze_content_blocks_paragraphs].
    intros b [_ H]. exact H. }
  destruct (extract_tables_total pdf_path read_pdf page_num
              (log ++ [(INFO, lit "Processing page " ++ str_of_nat page_num)]))
    as [tables [log1 [E [Ht Hfail]]]].
  exists tables, (flat_map (chart_near top_edge (page_chars pg))
                           (enumerate0 (page_images pg))), log1, log1.
  split; [exact E|]. split; [apply detect_charts_total|].
  split; [|split; [exact Ht|split; [apply charts_fresh | exact Hfail]]].
  rewrite process_page_steps. cbv zeta. rewrite E, detect_charts_total.
  fold text_blocks.
  rewrite (map_assign_inherit text_blocks is_table tables Hw Ht).
  rewrite (map_assign_inherit text_blocks is_chart _ Hw
             (charts_fresh (page_chars pg) (page_images pg))).
  unfold enumerate0.
  reflexivity.
Qed.

Lemma inherit_heading text_blocks b :
  heading (inherit text_blocks b) = inherited_heading text_blocks.
Proof.
  unfold inherit. rewrite heading_set_context.
  destruct (inherited_heading text_blocks). reflexivity.
Qed.

(** C1. On every page each table block and each chart block gets its
    heading by its own scan of the paragraph blocks of that page from
    the last one back: the content of the page is its paragraphs, then
    every block the table extractor returned, then every block the chart
    detector returned, each with [section] and [sub_section] of the
    first paragraph whose [section] is not null, and with both null when
    no paragraph has one.  With paragraphs of sections A, null, B the
    table inherits B. *)
Theorem tables_and_charts_inherit_heading :
  forall pdf_path read_pdf page_num (pg : page) (log : Eff.log),
    let text_blocks := analyze_content_blocks (page_chars pg) in
    (exists tables charts log1 log',
       extract_tables_from_page pdf_path read_pdf page_num
         (log ++ [(INFO, lit "Processing page " ++ str_of_nat page_num)])
       = (Ok tables, log1)
       /\ detect_charts_in_page pg log1 = (Ok charts, log')
       /\ process_page pdf_path read_pdf (page_num, Ok pg) log
          = (Ok (page_num,
                 text_blocks ++ map (inherit text_blocks) tables
                 ++ map (inherit text_blocks) charts), log')
       /\ Forall (fun b => is_table b = true /\ fresh b) tables
       /\ Forall (fun b => is_chart b = true /\ fresh b) charts)
    /\ (forall b, heading (inherit text_blocks b) = inherited_heading text_blocks)
    /\ (forall d rows t1 t2 t3,
          assign_context [ParagraphBlock (Some (lit "A")) None t1;
                          ParagraphBlock None None t2;
                          ParagraphBlock (Some (lit "B")) None t3]
                         (TableBlock None None d rows)
          = TableBlock (Some (lit "B")) None d rows).
Proof.
  intros pdf_path read_pdf page_num pg log text_blocks.
  split; [|split; [intros b; apply inherit_heading | reflexivity]].
  destruct (process_page_result pdf_path read_pdf page_num pg log)
    as [tables [charts [log1 [log' [E1 [E2 [E [Ht [Hc _]]]]]]]]].
  exists tables, charts, log1, log'. auto.
Qed.

(* ================================================================= *)
(** ** The table extractor: claim C9 *)

Lemma filter_none {A} (f : A -> bool) l :
  Forall (fun x => f x = false) l -> filter f l = [].
Proof.
  induction 1 as [|x l Hx _ IH]; [reflexivity|].
  cbn [filter]. rewrite Hx. exact IH.
Qed.

Lemma map_fst_combine {A B} : forall (l1 : list A) (l2 : list B),
  List.length l1 = List.length l2 -> map fst (combine l1 l2) = l1.
Proof.
  induction l1 as [|a l1 IH]; intros [|b l2] H; try discriminate; [reflexivity|].
  cbn [combine map fst]. f_equal. apply IH. simpl in H. lia.
Qed.

Lemma inherit_kind text_blocks b :
  is_table (inherit text_blocks b) = is_table b
  /\ is_chart (inherit text_blocks b) = is_chart b.
Proof. destruct b; split; reflexivity. Qed.

Lemma process_page_no_tables pdf_path read_pdf page_num pg log :
  exists blocks log',
    process_page pdf_path read_pdf (page_num, Ok pg) log
    = (Ok (page_num, blocks), log')
    /\ (forall e, read_pdf pdf_path (str_of_nat page_num) = Raise e ->
                  filter is_table blocks = []).
Proof.
  destruct (process_page_result pdf_path read_pdf page_num pg log)
    as [tables [charts [log1 [log' [_ [_ [E [_ [Hc Hfail]]]]]]]]].
  eexists _, log'. split; [exact E|].
  intros e He. rewrite (Hfail e He). cbn [map app].
  apply filter_none, Forall_app. split.
  - eapply Forall_impl; [|apply analyze_content_blocks_paragraphs].
    intros b [Hp _]. destruct b; [reflexivity | discriminate Hp | discriminate Hp].
  - apply Forall_map. eapply Forall_impl; [|exact Hc].
    intros b [Hb _]. destruct b; [reflexivity | discriminate Hb | reflexivity].
Qed.

Lemma combine_map_r {A B C} (f : B -> C) : forall (l1 : list A) (l2 : list B),
  combine l1 (map f l2) = map (fun p => (fst p, f (snd p))) (combine l1 l2).
Proof.
  induction l1 as [|a l1 IH]; intros [|b l2]; try reflexivity.
  cbn [combine map fst snd]. rewrite IH. reflexivity.
Qed.

Lemma enumerate1_map_ok (pages : list page) :
  enumerate1 (map Ok pages) = numbered_ok (enumerate1 pages).
Proof.
  unfold enumerate1, numbered_ok. rewrite length_map. apply combine_map_r.
Qed.

Lemma for_each_pages pdf_path read_pdf : forall (numbered : list (nat * page)) log,
  exists result log',
    for_each (process_page pdf_path read_pdf) (numbered_ok numbered) log
    = (Ok result, log')
    /\ map fst result = map fst numbered
    /\ Forall (fun entry =>
                 forall e, read_pdf pdf_path (str_of_nat (fst entry)) = Raise e ->
                           filter is_table (snd entry) = []) result.
Proof.
  induction numbered as [|[n pg] numbered IH]; intros log.
  - exists [], log. repeat split. constructor.
  - destruct (process_page_no_tables pdf_path read_pdf n pg log)
      as [blocks [log1 [E Hb]]].
    destruct (IH log1) as [result [log2 [ER [Hm HF]]]].
    exists ((n, blocks) :: result), log2.
    cbn [numbered_ok map for_each fst snd]. unfold bind at 1. rewrite E.
    fold (numbered_ok numbered).
    unfold bind at 1. rewrite ER. unfold ret.
    split; [reflexivity|]. split.
    + cbn [map fst]. rewrite Hm. reflexivity.
    + constructor; [exact Hb | exact HF].
Qed.

(** C9. Whatever the table service does, the per-page extraction returns
    a list and raises nothing.  When the service fails, the list is empty
    and one warning is logged; [parse_pdf] still yields an entry for
    every page, in order, and the entry of a page whose extraction failed
    has no table block. *)
Theorem table_failure_is_contained :
  forall (pdf_path : str) (read_pdf : str -> str -> outcome (list DataFrame)),
    (forall page_num log,
       exists tables log',
         extract_tables_from_page pdf_path read_pdf page_num log
         = (Ok tables, log'))
    /\ (forall page_num e log,
          read_pdf pdf_path (str_of_nat page_num) = Raise e ->
          extract_tables_from_page pdf_path read_pdf page_num log
          = (Ok [], log ++ [(WARNING,
                             lit "Could not extract tables from page "
                             ++ str_of_nat page_num ++ lit ": " ++ e)]))
    /\ (forall pages log,
          exists result log',
            parse_pdf pdf_path true read_pdf (readable pages) log
            = (Ok result, log')
            /\ map fst result = seq 1 (List.length pages)
            /\ Forall (fun entry =>
                         forall e,
                           read_pdf pdf_path (str_of_nat (fst entry)) = Raise e ->
                           filter is_table (snd entry) = []) result).
Proof.
  intros pdf_path read_pdf. split; [|split].
  - intros page_num log.
    destruct (extract_tables_total pdf_path read_pdf page_num log)
      as [tables [log' [E _]]].
    exists tables, log'. exact E.
  - intros page_num e log H.
    unfold extract_tables_from_page, try_except, bind, call.
    rewrite H. reflexivity.
  - intros pages log. unfold parse_pdf, readable, bind, call, logger_info, ret.
    cbn [negb]. cbv beta iota. rewrite enumerate1_map_ok.
    match goal with
    | |- context [for_each _ _ ?l] =>
        destruct (for_each_pages pdf_path read_pdf (enumerate1 pages) l)
          as [result [log1 [E [Hm HF]]]]
    end.
    eexists result, _. split; [|split; [|exact HF]].
    + rewrite E. reflexivity.
    + rewrite Hm. unfold enumerate1. apply map_fst_combine.
      apply length_seq.
Qed.

Lemma table_failure_is_contained_witness :
  extract_tables_from_page (lit "report.pdf") failing_service 1 []
  = (Ok [], [(WARNING, lit "Could not extract tables from page 1: boom")]).
Proof.
  apply (proj1 (proj2 (table_failure_is_contained (lit "report.pdf")
                                                  failing_service))
               1 (lit "boom") []).
  reflexivity.
Defined.

(* ================================================================= *)
(** ** More on the text cleaner *)

Lemma filter_non_space_drop_while s :
  filter non_space (drop_while is_space s) = filter non_space s.
Proof.
  induction s as [|c r IH]; [reflexivity|].
  cbn [drop_while filter]. unfold non_space at 2.
  destruct (is_space c) eqn:E; cbn [negb]; [exact IH|].
  cbn [filter]. unfold non_space at 1. rewrite E. reflexivity.
Qed.

Lemma filter_non_space_strip s :
  filter non_space (strip s) = filter non_space s.
Proof.
  unfold strip, rstrip, lstrip.
  rewrite filter_rev, filter_non_space_drop_while, <- filter_rev, rev_involutive.
  apply filter_non_space_drop_while.
Qed.

Lemma filter_non_space_collapse : forall s in_run,
  filter non_space (collapse in_run s) = filter non_space s.
Proof.
  induction s as [|c r IH]; intros in_run; [reflexivity|].
  cbn [collapse filter]. unfold non_space at 2.
  destruct (is_space c) eqn:E; cbn [negb].
  - destruct in_run; [apply IH|]. cbn [filter]. apply IH.
  - cbn [filter]. unfold non_space at 1. rewrite E. cbn [negb].
    rewrite IH. reflexivity.
Qed.

Lemma clean_text_collapse text :
  clean_text text = strip (collapse false text).
Proof.
  rewrite clean_text_eq. unfold re_sub. rewrite sub_ws_collapse by lia.
  reflexivity.
Qed.

Lemma filter_non_space_clean text :
  filter non_space (clean_text text) = filter non_space text.
Proof.
  rewrite clean_text_collapse, filter_non_space_strip.
  apply filter_non_space_collapse.
Qed.

(** X1. Cleaning touches whitespace only: the characters that are not
    whitespace come out unchanged and in the same order. *)
Theorem clean_text_keeps_non_space : forall text : str,
  filter non_space (clean_text text) = filter non_space text.
Proof. exact filter_non_space_clean. Qed.

Lemma filter_non_space_nil s :
  filter non_space s = [] <-> forallb is_space s = true.
Proof.
  induction s as [|c r IH]; [split; reflexivity|].
  cbn [filter forallb]. unfold non_space at 1.
  destruct (is_space c); cbn [negb andb]; [exact IH|].
  split; discriminate.
Qed.

Lemma clean_text_nil_iff text :
  clean_text text = [] <-> forallb is_space text = true.
Proof.
  rewrite <- filter_non_space_nil, <- (filter_non_space_clean text). split.
  - intros ->. reflexivity.
  - intros H. apply filter_non_space_nil in H.
    pose proof (strip_starts (re_sub ws_run [space] text 0)) as S.
    rewrite <- clean_text_eq in S.
    destruct (clean_text text) as [|c r]; [reflexivity|].
    cbn [forallb] in H. apply andb_true_iff in H. destruct H as [H _].
    cbn [starts_with_space] in S. congruence.
Qed.

(** X2. The cleaned text is empty exactly when the input holds nothing
    but whitespace. *)
Theorem clean_text_empty_iff_blank : forall text : str,
  clean_text text = [] <-> forallb is_space text = true.
Proof. exact clean_text_nil_iff. Qed.

(** X3. The texts the cleaner leaves unchanged are exactly those in
    which every whitespace character is a single space between two
    other characters. *)
Theorem clean_text_fixed_iff : forall text : str,
  clean_text text = text
  <-> collapsed text = true
      /\ starts_with_space text = false
      /\ ends_with_space text = false.
Proof.
  intros text. split.
  - intros E. rewrite <- E. split; [apply clean_text_collapsed|].
    rewrite clean_text_eq. split; [apply strip_starts | apply strip_ends].
  - intros [H1 [H2 H3]]. apply clean_text_fixed; assumption.
Qed.

(* ================================================================= *)
(** ** More on the heading classifier *)

Lemma scan_section_first_capture pats line :
  scan_section pats line None = first_capture pats line.
Proof.
  unfold first_capture.
  induction pats as [|pat rest IH]; [reflexivity|].
  cbn [scan_section map first_some].
  destruct (match_group1 true pat line); [reflexivity | exact IH].
Qed.

Lemma first_capture_truthy pats line v :
  Forall heading_shape pats ->
  first_capture pats line = Some v -> truthy (Some v) = true.
Proof.
  intros Hp H. rewrite <- scan_section_first_capture in H.
  destruct (scan_section_well_set pats line None Hp) as [E|E].
  - left. reflexivity.
  - congruence.
  - rewrite H in E. exact E.
Qed.

Lemma first_capture_blank : first_capture section_patterns [] = None.
Proof. vm_compute. reflexivity. Qed.

Lemma scan_lines_section_found : forall lines st,
  truthy (fst st) = true -> fst (fold_left scan_line lines st) = fst st.
Proof.
  induction lines as [|x lines IH]; intros st H; [reflexivity|].
  cbn [fold_left].
  assert (E : fst (scan_line st x) = fst st).
  { unfold scan_line. destruct (strip x) as [|c t]; [reflexivity|].
    unfold classify_line. cbn [fst]. apply scan_section_found, H. }
  rewrite IH; rewrite E; [reflexivity | exact H].
Qed.

Lemma scan_lines_section : forall lines sub,
  fst (fold_left scan_line lines (None, sub))
  = first_some (map (fun raw => first_capture section_patterns (strip raw)) lines).
Proof.
  induction lines as [|x lines IH]; intros sub; [reflexivity|].
  cbn [fold_left map first_some]. unfold scan_line at 2.
  destruct (strip x) as [|c t] eqn:Sx.
  - rewrite first_capture_blank. apply IH.
  - unfold classify_line. cbn [fst snd].
    rewrite scan_section_first_capture.
    destruct (first_capture section_patterns (c :: t)) as [v|] eqn:F.
    + rewrite scan_lines_section_found; [reflexivity|].
      cbn [fst]. exact (first_capture_truthy _ _ _ section_patterns_shape F).
    + apply IH.
Qed.

(** X4. The section is decided by the first of the first five lines that
    matches a section pattern at all, and within that line by the first
    pattern of the list that matches: it is that pattern's capture,
    trimmed.  Later lines and later patterns never override it. *)
Theorem section_is_first_capture : forall text : str,
  fst (extract_sections_and_subsections text)
  = first_some (map (fun raw => first_capture section_patterns (strip raw))
                    (firstn 5 (split_nl text))).
Proof.
  intros text. unfold extract_sections_and_subsections.
  apply scan_lines_section.
Qed.

Lemma truthy_trimmed g :
  truthy (Some (strip g)) = true -> trimmed_heading (Some (strip g)).
Proof.
  intros H. cbn [trimmed_heading]. split; [|split].
  - intros E. rewrite E in H. discriminate H.
  - apply strip_starts.
  - apply strip_ends.
Qed.

Lemma scan_section_trimmed pats line section :
  Forall heading_shape pats -> trimmed_heading section ->
  trimmed_heading (scan_section pats line section).
Proof.
  intros Hp Hs. induction Hp as [|pat rest Hpat _ IH]; [exact Hs|].
  cbn [scan_section].
  destruct (match_group1 true pat line) as [g|] eqn:E; [|exact IH].
  destruct (negb (truthy section)); [|exact IH].
  apply truthy_trimmed. exact (heading_group_truthy _ _ _ Hpat E).
Qed.

Lemma scan_sub_section_trimmed pats line section sub :
  Forall heading_shape pats -> trimmed_heading sub ->
  trimmed_heading (scan_sub_section pats line section sub).
Proof.
  intros Hp Hs. induction Hp as [|pat rest Hpat _ IH]; [exact Hs|].
  cbn [scan_sub_section].
  destruct (match_group1 true pat line) as [g|] eqn:E; [|exact IH].
  destruct (negb (truthy sub) && truthy section); [|exact IH].
  apply truthy_trimmed. exact (heading_group_truthy _ _ _ Hpat E).
Qed.

Lemma scan_lines_trimmed : forall lines st,
  trimmed_heading (fst st) /\ trimmed_heading (snd st) ->
  trimmed_heading (fst (fold_left scan_line lines st))
  /\ trimmed_heading (snd (fold_left scan_line lines st)).
Proof.
  induction lines as [|x lines IH]; intros st H; [exact H|].
  cbn [fold_left]. apply IH. unfold scan_line.
  destruct (strip x) as [|c t]; [exact H|].
  unfold classify_line. cbn [fst snd]. destruct H as [H1 H2]. split.
  - apply scan_section_trimmed; [apply section_patterns_shape | exact H1].
  - apply scan_sub_section_trimmed; [apply subsection_patterns_shape | exact H2].
Qed.

Lemma extract_trimmed text :
  trimmed_heading (fst (extract_sections_and_subsections text))
  /\ trimmed_heading (snd (extract_sections_and_subsections text)).
Proof.
  unfold extract_sections_and_subsections. apply scan_lines_trimmed.
  split; exact I.
Qed.

(** X5. A heading the classifier returns is never the empty string and
    never starts or ends with whitespace; this holds for the section and
    for the sub-section. *)
Theorem headings_are_trimmed : forall text : str,
  trimmed_heading (fst (extract_sections_and_subsections text))
  /\ trimmed_heading (snd (extract_sections_and_subsections text)).
Proof. exact extract_trimmed. Qed.

Lemma scan_sub_section_found pats line section sub :
  truthy sub = true -> scan_sub_section pats line section sub = sub.
Proof.
  intros H. induction pats as [|pat rest IH]; [reflexivity|].
  cbn [scan_sub_section]. rewrite H. cbn [negb andb].
  destruct (match_group1 true pat line); exact IH.
Qed.

Lemma scan_sub_section_hit pats line section sub pat g :
  Forall heading_shape pats -> In pat pats ->
  match_group1 true pat line = Some g ->
  truthy section = true -> (sub = None \/ truthy sub = true) ->
  truthy (scan_sub_section pats line section sub) = true.
Proof.
  intros Hp Hin Hm Hs [Hn|Ht].
  2:{ rewrite scan_sub_section_found by exact Ht. exact Ht. }
  subst sub. induction Hp as [|p rest Hshape _ IH]; [destruct Hin|].
  cbn [scan_sub_section]. rewrite Hs. cbn [truthy negb andb].
  destruct (match_group1 true p line) as [g'|] eqn:E.
  - exact (heading_group_truthy _ _ _ Hshape E).
  - destruct Hin as [->|Hin]; [congruence | exact (IH Hin)].
Qed.

Lemma scan_section_hit pats line section pat g :
  Forall heading_shape pats -> In pat pats ->
  match_group1 true pat line = Some g ->
  (section = None \/ truthy section = true) ->
  truthy (scan_section pats line section) = true.
Proof.
  intros Hp Hin Hm [Hn|Ht].
  2:{ rewrite scan_section_found by exact Ht. exact Ht. }
  subst section. induction Hp as [|p rest Hshape _ IH]; [destruct Hin|].
  cbn [scan_section truthy negb].
  destruct (match_group1 true p line) as [g'|] eqn:E.
  - exact (heading_group_truthy _ _ _ Hshape E).
  - destruct Hin as [->|Hin]; [congruence | exact (IH Hin)].
Qed.

Lemma scan_lines_well_set : forall lines st,
  well_set (fst st) /\ well_set (snd st) ->
  well_set (fst (fold_left scan_line lines st))
  /\ well_set (snd (fold_left scan_line lines st)).
Proof.
  induction lines as [|x lines IH]; intros st H; [exact H|].
  cbn [fold_left]. apply IH. unfold scan_line.
  destruct (strip x) as [|c t]; [exact H|].
  unfold classify_line. cbn [fst snd]. destruct H as [H1 H2]. split.
  - apply scan_section_well_set; [apply section_patterns_shape | exact H1].
  - destruct (scan_sub_section_cases subsection_patterns (c :: t)
                (scan_section section_patterns (c :: t) (fst st)) (snd st))
      as [E|[_ [pat [g [Hin [Hm E]]]]]]; rewrite E; [exact H2|].
    right. apply (heading_group_truthy pat (c :: t) g); [|exact Hm].
    exact (proj1 (Forall_forall _ _) subsection_patterns_shape pat Hin).
Qed.

Lemma scan_lines_both_found : forall lines st,
  truthy (fst st) = true -> truthy (snd st) = true ->
  fold_left scan_line lines st = st.
Proof.
  induction lines as [|x lines IH]; intros [s b] H1 H2; [reflexivity|].
  cbn [fold_left]. cbn [fst snd] in H1, H2.
  assert (E : scan_line (s, b) x = (s, b)).
  { unfold scan_line. destruct (strip x) as [|c t]; [reflexivity|].
    unfold classify_line. cbn [fst snd].
    rewrite scan_section_found by exact H1.
    rewrite scan_sub_section_found by exact H2. reflexivity. }
  rewrite E. apply IH; assumption.
Qed.

Lemma title_case_in_sections : In title_case_pattern section_patterns.
Proof. right. right. left. reflexivity. Qed.

Lemma title_case_in_subsections : In title_case_pattern subsection_patterns.
Proof. right. right. left. reflexivity. Qed.

(** X6. A Title Case line among the first five lines always sets both
    fields: whenever such a line matches the pattern shared by the two
    lists, the classifier returns a section and a sub-section. *)
Theorem title_case_line_sets_both : forall (text line g : str),
  In line (firstn 5 (split_nl text)) ->
  match_group1 true title_case_pattern (strip line) = Some g ->
  exists section sub,
    extract_sections_and_subsections text = (Some section, Some sub).
Proof.
  intros text line g Hin Hm. unfold extract_sections_and_subsections.
  destruct (in_split _ _ Hin) as [before [after E]]. rewrite E.
  rewrite fold_left_app. cbn [fold_left].
  destruct (scan_lines_well_set before (None, None)) as [W1 W2];
    [split; left; reflexivity|].
  set (st := fold_left scan_line before (None, None)) in *.
  assert (T : truthy (fst (scan_line st line)) = true
              /\ truthy (snd (scan_line st line)) = true).
  { unfold scan_line. destruct (strip line) as [|c t] eqn:S.
    - vm_compute in Hm. discriminate Hm.
    - unfold classify_line. cbn [fst snd].
      assert (T1 : truthy (scan_section section_patterns (c :: t) (fst st)) = true).
      { eapply scan_section_hit; eauto using section_patterns_shape,
          title_case_in_sections. }
      split; [exact T1|].
      eapply scan_sub_section_hit; eauto using subsection_patterns_shape,
        title_case_in_subsections. }
  destruct T as [T1 T2].
  rewrite scan_lines_both_found by assumption.
  destruct (scan_line st line) as [[s|] [b|]]; try discriminate.
  exists s, b. reflexivity.
Qed.

Lemma title_case_line_sets_both_witness :
  exists section sub,
    extract_sections_and_subsections (nlit "intro|Key Findings|more")
    = (Some section, Some sub).
Proof.
  apply (title_case_line_sets_both (nlit "intro|Key Findings|more")
                                   (lit "Key Findings") (lit "Key Findings")).
  - vm_compute. right. left. reflexivity.
  - vm_compute. reflexivity.
Defined.

(* ================================================================= *)
(** ** More on the paragraph segmenter *)

Lemma group_lines_snoc cs c :
  group_lines (cs ++ [c]) = add_char (line_key c) c (group_lines cs).
Proof. unfold group_lines. rewrite fold_left_app. reflexivity. Qed.

Lemma line_chars_add_char k c : forall lines k',
  line_chars k' (add_char k c lines)
  = if (k' =? k)%Z then line_chars k lines ++ [c] else line_chars k' lines.
Proof.
  induction lines as [|[k0 cs0] lines IH]; intros k'.
  - cbn [add_char line_chars].
    destruct (Z.eqb_spec k k'), (Z.eqb_spec k' k); congruence || reflexivity.
  - cbn [add_char line_chars]. destruct (Z.eqb_spec k0 k) as [E0|N0].
    + subst k0. cbn [line_chars].
      destruct (Z.eqb_spec k k'), (Z.eqb_spec k' k); congruence || reflexivity.
    + cbn [line_chars]. rewrite IH.
      destruct (Z.eqb_spec k0 k'), (Z.eqb_spec k' k); congruence || reflexivity.
Qed.

Lemma line_chars_group_lines k : forall cs,
  line_chars k (group_lines cs) = on_line k cs.
Proof.
  induction cs as [|c cs IH] using rev_ind; [reflexivity|].
  rewrite group_lines_snoc, line_chars_add_char. unfold on_line.
  rewrite filter_app. cbn [filter]. fold (on_line k cs).
  rewrite (Z.eqb_sym k (line_key c)).
  destruct (Z.eqb_spec (line_key c) k) as [E|N].
  - rewrite E, IH. reflexivity.
  - rewrite IH, app_nil_r. reflexivity.
Qed.

Lemma add_char_keys k c : forall lines,
  map fst (add_char k c lines) = map fst lines
  \/ (~ In k (map fst lines) /\ map fst (add_char k c lines) = map fst lines ++ [k]).
Proof.
  induction lines as [|[k0 cs0] lines IH].
  - right. split; [intros [] | reflexivity].
  - cbn [add_char]. destruct (k0 =? k)%Z eqn:E0; [left; reflexivity|].
    apply Z.eqb_neq in E0. cbn [map fst].
    destruct IH as [IH|[Hn IH]]; [left; rewrite IH; reflexivity|].
    right. split; [|rewrite IH; reflexivity].
    intros [H|H]; [exact (E0 H) | exact (Hn H)].
Qed.

Lemma add_char_in_keys k c : forall lines, In k (map fst (add_char k c lines)).
Proof.
  induction lines as [|[k0 cs0] lines IH]; [left; reflexivity|].
  cbn [add_char]. destruct (k0 =? k)%Z eqn:E0.
  - left. apply Z.eqb_eq, E0.
  - right. exact IH.
Qed.

Lemma add_char_keeps_keys k c k' : forall lines,
  In k' (map fst lines) -> In k' (map fst (add_char k c lines)).
Proof.
  intros lines H. destruct (add_char_keys k c lines) as [E|[_ E]]; rewrite E.
  - exact H.
  - apply in_or_app. left. exact H.
Qed.

Lemma add_char_nonempty k c : forall lines,
  Forall (fun e => snd e <> []) lines ->
  Forall (fun e => snd e <> []) (add_char k c lines).
Proof.
  induction 1 as [|[k0 cs0] lines H0 Hl IH].
  - constructor; [discriminate | constructor].
  - cbn [add_char]. destruct (k0 =? k)%Z.
    + constructor; [|assumption]. cbn [snd]. intros E.
      apply app_eq_nil in E. destruct E as [_ E]. discriminate E.
    + constructor; assumption.
Qed.

Lemma group_lines_keys cs :
  NoDup (map fst (group_lines cs))
  /\ Forall (fun e => snd e <> []) (group_lines cs)
  /\ Forall (fun c => In (line_key c) (map fst (group_lines cs))) cs.
Proof.
  induction cs as [|c cs [IH1 [IH2 IH3]]] using rev_ind.
  - repeat split; constructor.
  - rewrite group_lines_snoc. split; [|split].
    + destruct (add_char_keys (line_key c) c (group_lines cs)) as [E|[Hn E]];
        rewrite E; [exact IH1|].
      apply NoDup_app; [exact IH1 | repeat constructor; intros [] |].
      intros x Hx [<-|[]]. exact (Hn Hx).
    + apply add_char_nonempty, IH2.
    + apply Forall_app. split.
      * eapply Forall_impl; [|exact IH3]. intros a Ha.
        apply add_char_keeps_keys, Ha.
      * constructor; [apply add_char_in_keys | constructor].
Qed.

Lemma line_chars_in k cs : forall lines,
  NoDup (map fst lines) -> In (k, cs) lines -> line_chars k lines = cs.
Proof.
  induction lines as [|[k0 cs0] lines IH]; intros Hnd Hin; [destruct Hin|].
  cbn [line_chars]. cbn [map fst] in Hnd. inversion Hnd as [|? ? Hni Hnd']; subst.
  destruct Hin as [E|Hin].
  - injection E as -> ->. rewrite Z.eqb_refl. reflexivity.
  - destruct (k0 =? k)%Z eqn:E0; [|apply IH; assumption].
    apply Z.eqb_eq in E0. subst k0. exfalso. apply Hni.
    change k with (fst (k, cs)). apply in_map, Hin.
Qed.

Lemma group_lines_entries cs :
  Forall (fun e => snd e <> [] /\ snd e = on_line (fst e) cs) (group_lines cs).
Proof.
  destruct (group_lines_keys cs) as [Hnd [Hne _]].
  apply Forall_forall. intros [k l] Hin. cbn [fst snd]. split.
  - exact (proj1 (Forall_forall _ _) Hne (k, l) Hin).
  - rewrite <- line_chars_group_lines. symmetry.
    apply line_chars_in; assumption.
Qed.

(** X7. Grouping loses nothing and mixes nothing: the dictionary of
    lines has one entry per rounded height that occurs, and the entry of
    a height holds exactly the glyphs of that height, in the order the
    page lists them. *)
Theorem group_lines_partitions : forall text_objects : list pdf_char,
  NoDup (map fst (group_lines text_objects))
  /\ Forall (fun e => snd e <> [] /\ snd e = on_line (fst e) text_objects)
            (group_lines text_objects)
  /\ Forall (fun c => In (line_key c) (map fst (group_lines text_objects)))
            text_objects.
Proof.
  intros cs. destruct (group_lines_keys cs) as [H1 [_ H3]].
  split; [exact H1|]. split; [apply group_lines_entries | exact H3].
Qed.

Lemma insert_desc_perm x : forall l, Permutation (insert_desc x l) (x :: l).
Proof.
  induction l as [|h t IH]; [reflexivity|].
  cbn [insert_desc]. destruct (fst h <=? fst x)%Z; [reflexivity|].
  rewrite IH. apply perm_swap.
Qed.

Lemma sorted_lines_perm l : Permutation (sorted_lines l) l.
Proof.
  induction l as [|x l IH]; [reflexivity|].
  cbn [sorted_lines fold_right]. fold (sorted_lines l).
  rewrite insert_desc_perm. constructor. exact IH.
Qed.

Lemma insert_desc_sorted x : forall l,
  ~ In (fst x) (map fst l) ->
  StronglySorted above l -> StronglySorted above (insert_desc x l).
Proof.
  induction l as [|h t IH]; intros Hn Hs.
  - constructor; constructor.
  - cbn [insert_desc]. inversion Hs as [|? ? Hs' Hh]; subst.
    assert (Hne : fst h <> fst x) by (intros E; apply Hn; left; exact E).
    destruct (fst h <=? fst x)%Z eqn:E.
    + apply Z.leb_le in E. constructor; [exact Hs|].
      constructor; [unfold above; lia|].
      eapply Forall_impl; [|exact Hh]. unfold above. intros a Ha. lia.
    + apply Z.leb_gt in E. constructor.
      * apply IH; [|exact Hs']. intros H. apply Hn. right. exact H.
      * apply (Permutation_Forall (x := x :: t));
          [symmetry; apply insert_desc_perm|].
        constructor; [exact E | exact Hh].
Qed.

Lemma sorted_lines_sorted l :
  NoDup (map fst l) -> StronglySorted above (sorted_lines l).
Proof.
  induction l as [|x l IH]; intros Hnd; [constructor|].
  cbn [sorted_lines fold_right]. fold (sorted_lines l).
  cbn [map] in Hnd. inversion Hnd as [|? ? Hni Hnd']; subst.
  apply insert_desc_sorted; [|apply IH, Hnd'].
  intros H. apply Hni.
  eapply Permutation_in; [|exact H].
  apply Permutation_map, sorted_lines_perm.
Qed.

(** X8. The segmenter walks the lines of a page from the top down, each
    line once: the list it iterates holds the entries of the dictionary
    of lines, rearranged so that the rounded height strictly decreases. *)
Theorem lines_visited_top_down : forall text_objects : list pdf_char,
  Permutation (sorted_lines (group_lines text_objects)) (group_lines text_objects)
  /\ StronglySorted above (sorted_lines (group_lines text_objects)).
Proof.
  intros cs. split; [apply sorted_lines_perm|].
  apply sorted_lines_sorted. apply group_lines_keys.
Qed.

Lemma analyze_content_blocks_eq text_objects :
  analyze_content_blocks text_objects
  = seg_finish (seg_after (sorted_lines (group_lines text_objects))).
Proof. destruct text_objects; reflexivity. Qed.

Lemma group_lines_one_line k : forall cs acc,
  Forall (fun c => line_key c = k) cs ->
  fold_left (fun lines c => add_char (round1 (c_y0 c)) c lines) cs [(k, acc)]
  = [(k, acc ++ cs)].
Proof.
  induction cs as [|c cs IH]; intros acc H.
  - rewrite app_nil_r. reflexivity.
  - inversion H as [|? ? Hc Hcs]; subst. cbn [fold_left add_char].
    fold (line_key c). rewrite Z.eqb_refl, IH by exact Hcs.
    rewrite <- app_assoc. reflexivity.
Qed.

Lemma flush_single t :
  strip t = t ->
  flush [t]
  = if 10 <? List.length t
    then [ParagraphBlock (fst (extract_sections_and_subsections t))
                         (snd (extract_sections_and_subsections t))
                         (clean_text t)]
    else [].
Proof.
  intros E. unfold flush. cbn [join]. rewrite E.
  destruct (extract_sections_and_subsections t). reflexivity.
Qed.

(** X9. A page whose glyphs all lie at one rounded height gives at most
    one block: the line's trimmed text, cleaned and classified, when
    that trimmed text is longer than ten characters, and nothing
    otherwise. *)
Theorem single_line_page : forall (text_objects : list pdf_char) (k : Z),
  Forall (fun c => line_key c = k) text_objects ->
  analyze_content_blocks text_objects
  = if 10 <? List.length (line_text text_objects)
    then [ParagraphBlock
            (fst (extract_sections_and_subsections (line_text text_objects)))
            (snd (extract_sections_and_subsections (line_text text_objects)))
            (clean_text (line_text text_objects))]
    else [].
Proof.
  intros cs k H. destruct cs as [|c0 cs]; [reflexivity|].
  inversion H as [|? ? H0 Hcs]; subst.
  unfold analyze_content_blocks, group_lines. cbn [fold_left add_char].
  fold (line_key c0). rewrite group_lines_one_line by exact Hcs.
  cbn [app sorted_lines fold_right insert_desc fold_left].
  unfold seg_step. cbn [seg_init current_y_group gap_exceeded].
  destruct (line_text (c0 :: cs)) as [|a t] eqn:L; [reflexivity|].
  change (current_paragraph seg_init) with (@nil str).
  change (content_blocks seg_init) with (@nil block). cbn [app].
  cbn [current_paragraph content_blocks app].
  rewrite flush_single; [reflexivity|].
  rewrite <- L. apply strip_idem.
Qed.

Lemma single_line_page_witness :
  analyze_content_blocks
    (glyphs 100 "This is a simple test paragraph for validation.")
  = [ParagraphBlock None None
       (lit "This is a simple test paragraph for validation.")].
Proof.
  rewrite (single_line_page
             (glyphs 100 "This is a simple test paragraph for validation.")
             1000%Z).
  - vm_compute. reflexivity.
  - repeat constructor.
Defined.

Lemma blank_strip s : forallb is_space s = true -> strip s = [].
Proof.
  intros H. unfold strip, lstrip.
  assert (E : drop_while is_space s = []).
  { induction s as [|c r IH]; [reflexivity|].
    cbn [forallb] in H. apply andb_true_iff in H. destruct H as [Hc Hr].
    cbn [drop_while]. rewrite Hc. exact (IH Hr). }
  rewrite E. reflexivity.
Qed.

Lemma clean_text_again text : clean_text (clean_text text) = clean_text text.
Proof.
  apply clean_text_fixed.
  - apply clean_text_collapsed.
  - rewrite clean_text_eq. apply strip_starts.
  - rewrite clean_text_eq. apply strip_ends.
Qed.

Lemma flush_sound buf : Forall sound_paragraph (flush buf).
Proof.
  unfold flush. set (pt := join [space] buf).
  destruct (10 <? List.length (strip pt)) eqn:L; [|constructor].
  apply Nat.ltb_lt in L.
  destruct (extract_sections_and_subsections pt) as [s ss] eqn:E.
  constructor; [|constructor].
  exists s, ss, (clean_text pt). split; [reflexivity|].
  pose proof (extract_trimmed pt) as [T1 T2]. rewrite E in T1, T2.
  cbn [fst snd] in T1, T2. repeat split; try assumption.
  - intros C. apply clean_text_nil_iff, blank_strip in C.
    rewrite C in L. simpl in L. lia.
  - apply clean_text_again.
  - intros Hss. destruct ss as [sub|]; [|congruence].
    destruct (scan_lines_invariant _ _ _ E) as [Ht _].
    intros ->. discriminate Ht.
Qed.

Lemma analyze_content_blocks_forall (P : block -> Prop) text_objects :
  (forall buf, Forall P (flush buf)) ->
  Forall P (analyze_content_blocks text_objects).
Proof.
  intros HF. rewrite analyze_content_blocks_eq. unfold seg_finish, seg_after.
  assert (K : forall lines,
             Forall P (content_blocks (fold_left seg_step lines seg_init))).
  { induction lines as [|ln lines IH] using rev_ind; [constructor|].
    rewrite fold_left_app. cbn [fold_left].
    apply seg_step_paragraphs; [exact HF | exact IH]. }
  match goal with |- context [fold_left seg_step ?l seg_init] =>
    specialize (K l); set (st := fold_left seg_step l seg_init) in * end.
  destruct (current_paragraph st); [exact K|].
  apply Forall_app. split; [exact K | apply HF].
Qed.

(** X10. Every block the segmenter emits is a paragraph with a non-empty
    text that is already clean; its headings, when set, are non-empty
    and trimmed, and it has no sub-section without a section. *)
Theorem paragraphs_are_sound : forall text_objects : list pdf_char,
  Forall sound_paragraph (analyze_content_blocks text_objects).
Proof.
  intros cs. apply analyze_content_blocks_forall. exact flush_sound.
Qed.

(** *** The order in which the page lists its lines *)

Lemma above_sorted_unique : forall l1 l2,
  StronglySorted above l1 -> StronglySorted above l2 ->
  (forall e, In e l1 <-> In e l2) -> l1 = l2.
Proof.
  induction l1 as [|a l1 IH]; intros [|b l2] S1 S2 H.
  - reflexivity.
  - exfalso. apply (proj2 (H b)). left. reflexivity.
  - exfalso. apply (proj1 (H a)). left. reflexivity.
  - inversion S1 as [|? ? S1' F1]; inversion S2 as [|? ? S2' F2]; subst.
    assert (Irr : forall x l, Forall (above x) l -> ~ In x l).
    { intros x l F Hx. apply (proj1 (Forall_forall _ _) F) in Hx.
      unfold above in Hx. lia. }
    assert (E : a = b).
    { destruct (proj1 (H a) (or_introl eq_refl)) as [Ha|Ha]; [auto|].
      destruct (proj2 (H b) (or_introl eq_refl)) as [Hb|Hb]; [auto|].
      apply (proj1 (Forall_forall _ _) F2) in Ha.
      apply (proj1 (Forall_forall _ _) F1) in Hb.
      unfold above in Ha, Hb. lia. }
    subst b. f_equal. apply IH; [assumption | assumption|].
    intros e. split; intros He.
    + destruct (proj1 (H e) (or_intror He)) as [<-|?]; [|assumption].
      exfalso. exact (Irr a l1 F1 He).
    + destruct (proj2 (H e) (or_intror He)) as [<-|?]; [|assumption].
      exfalso. exact (Irr a l2 F2 He).
Qed.

Lemma on_line_nonempty k cs :
  on_line k cs <> [] -> exists c, In c cs /\ line_key c = k.
Proof.
  unfold on_line. intros H.
  destruct (filter (fun c => (line_key c =? k)%Z) cs) as [|c r] eqn:E;
    [congruence|].
  assert (Hin : In c (filter (fun c => (line_key c =? k)%Z) cs))
    by (rewrite E; left; reflexivity).
  apply filter_In in Hin. destruct Hin as [Hin Hk].
  exists c. split; [exact Hin | apply Z.eqb_eq, Hk].
Qed.

Lemma group_lines_in_iff cs e :
  In e (group_lines cs) <-> snd e <> [] /\ snd e = on_line (fst e) cs.
Proof.
  split.
  - apply (proj1 (Forall_forall _ _) (group_lines_entries cs)).
  - destruct e as [k l]. cbn [fst snd]. intros [Hne ->].
    destruct (on_line_nonempty k cs Hne) as [c [Hin Hk]].
    destruct (group_lines_keys cs) as [Hnd [_ Hall]].
    apply (proj1 (Forall_forall _ _) Hall) in Hin. rewrite Hk in Hin.
    apply in_map_iff in Hin. destruct Hin as [[k' l'] [Ek Hin]].
    cbn [fst] in Ek. subst k'.
    pose proof (proj1 (Forall_forall _ _) (group_lines_entries cs) _ Hin)
      as [_ El]. cbn [fst snd] in El. rewrite <- El. exact Hin.
Qed.

Lemma on_line_swap k l1 l2 :
  (forall c1 c2, In c1 l1 -> In c2 l2 -> line_key c1 <> line_key c2) ->
  on_line k (l1 ++ l2) = on_line k (l2 ++ l1).
Proof.
  intros D. unfold on_line. rewrite !filter_app.
  fold (on_line k l1). fold (on_line k l2).
  destruct (on_line k l1) as [|c1 r1] eqn:E1; [rewrite app_nil_r; reflexivity|].
  destruct (on_line k l2) as [|c2 r2] eqn:E2; [rewrite app_nil_r; reflexivity|].
  exfalso.
  destruct (on_line_nonempty k l1) as [a [Ha Ka]]; [rewrite E1; discriminate|].
  destruct (on_line_nonempty k l2) as [b [Hb Kb]]; [rewrite E2; discriminate|].
  apply (D a b Ha Hb). congruence.
Qed.

(** X11. The order in which the page lists glyphs of different lines
    does not matter: swapping two runs of glyphs that share no rounded
    height gives the same paragraphs. *)
Theorem line_order_is_irrelevant : forall l1 l2 : list pdf_char,
  (forall c1 c2, In c1 l1 -> In c2 l2 -> line_key c1 <> line_key c2) ->
  analyze_content_blocks (l1 ++ l2) = analyze_content_blocks (l2 ++ l1).
Proof.
  intros l1 l2 D. rewrite !analyze_content_blocks_eq. do 2 f_equal.
  apply above_sorted_unique.
  - apply sorted_lines_sorted, group_lines_keys.
  - apply sorted_lines_sorted, group_lines_keys.
  - intros e.
    assert (P : forall cs, In e (sorted_lines (group_lines cs))
                           <-> In e (group_lines cs)).
    { intros cs. split; apply Permutation_in;
        [|symmetry]; apply sorted_lines_perm. }
    rewrite !P, !group_lines_in_iff, (on_line_swap (fst e) l1 l2 D).
    reflexivity.
Qed.

Lemma line_order_is_irrelevant_witness :
  analyze_content_blocks (glyphs 70 "second line." ++ glyphs 100 "first line, of text.")
  = analyze_content_blocks (glyphs 100 "first line, of text." ++ glyphs 70 "second line.").
Proof.
  apply (line_order_is_irrelevant (glyphs 70 "second line.")
                                  (glyphs 100 "first line, of text.")).
  intros c1 c2 H1 H2.
  assert (K1 : line_key c1 = 700%Z).
  { revert c1 H1. apply Forall_forall. repeat constructor. }
  assert (K2 : line_key c2 = 1000%Z).
  { revert c2 H2. apply Forall_forall. repeat constructor. }
  rewrite K1, K2. discriminate.
Defined.

(* ================================================================= *)
(** ** More on the table extractor and the chart detector *)

Lemma tables_loop_eq page_num : forall dfs i tables,
  tables_loop page_num i dfs tables
  = tables ++ flat_map (table_of page_num) (combine (seq i (List.length dfs)) dfs).
Proof.
  induction dfs as [|df dfs IH]; intros i tables.
  - cbn. rewrite app_nil_r. reflexivity.
  - cbn [tables_loop List.length seq combine flat_map table_of].
    destruct (df_empty df); [apply IH|].
    destruct (filter row_has_content df) as [|r rows]; [apply IH|].
    rewrite IH, <- app_assoc. reflexivity.
Qed.

Lemma flat_map_length_le {A B} (f : A -> list B) l :
  (forall a, List.length (f a) <= 1) ->
  List.length (flat_map f l) <= List.length l.
Proof.
  intros H. induction l as [|a l IH]; [reflexivity|].
  cbn [flat_map]. rewrite length_app. specialize (H a). simpl. lia.
Qed.

Lemma table_of_sound page_num dfs : forall i df,
  nth_error dfs i = Some df ->
  Forall (sound_table page_num dfs) (table_of page_num (i, df)).
Proof.
  intros i df Hn. unfold table_of.
  destruct (df_empty df) eqn:E; [constructor|].
  destruct (filter row_has_content df) as [|r rows] eqn:F; [constructor|].
  constructor; [|constructor].
  exists i, df. rewrite F. repeat split; try assumption. discriminate.
Qed.

Lemma enumerated_nth {A} (l : list A) : forall i0 i a,
  In (i, a) (combine (seq i0 (List.length l)) l) ->
  i0 <= i /\ nth_error l (i - i0) = Some a.
Proof.
  induction l as [|x l IH]; intros i0 i a H; [destruct H|].
  cbn [List.length seq combine] in H. destruct H as [E|H].
  - injection E as <- <-. rewrite Nat.sub_diag. split; [lia | reflexivity].
  - apply IH in H. destruct H as [Hle Hn]. split; [lia|].
    replace (i - i0) with (S (i - S i0)) by lia. exact Hn.
Qed.

Lemma flat_map_Forall {A B} (P : B -> Prop) (f : A -> list B) l :
  (forall a, In a l -> Forall P (f a)) -> Forall P (flat_map f l).
Proof.
  intros H. induction l as [|a l IH]; [constructor|].
  cbn [flat_map]. apply Forall_app. split.
  - apply H. left. reflexivity.
  - apply IH. intros b Hb. apply H. right. exact Hb.
Qed.

(** X12. When the table service answers, the extraction logs nothing and
    returns at most one block per table found.  Each block comes from a
    table that is not empty and keeps exactly its rows that have some
    non-blank cell, at least one; its description carries the position
    of the table in the answer, counted from 1, and the page number. *)
Theorem tables_are_sound :
  forall pdf_path read_pdf (page_num : nat) (dfs : list DataFrame) (log : Eff.log),
    read_pdf pdf_path (str_of_nat page_num) = Ok dfs ->
    exists tables,
      extract_tables_from_page pdf_path read_pdf page_num log = (Ok tables, log)
      /\ List.length tables <= List.length dfs
      /\ Forall (sound_table page_num dfs) tables.
Proof.
  intros pdf_path read_pdf page_num dfs log H.
  unfold extract_tables_from_page, try_except, bind, call, ret. rewrite H.
  eexists. split; [reflexivity|]. rewrite tables_loop_eq. cbn [app]. split.
  - eapply Nat.le_trans; [apply flat_map_length_le|].
    + intros [i df]. unfold table_of. destruct (df_empty df); [simpl; lia|].
      destruct (filter row_has_content df); simpl; lia.
    + rewrite length_combine, length_seq. lia.
  - apply flat_map_Forall. intros [i df] Hin.
    apply enumerated_nth in Hin. destruct Hin as [_ Hn].
    rewrite Nat.sub_0_r in Hn. apply table_of_sound, Hn.
Qed.

Lemma tables_are_sound_witness :
  exists tables,
    extract_tables_from_page (lit "report.pdf") one_table_service 3 []
    = (Ok tables, [])
    /\ List.length tables <= 1
    /\ Forall (sound_table 3 [ [ [lit "Year"; lit "Total"]; [lit " "; lit ""] ] ])
              tables.
Proof.
  apply (tables_are_sound (lit "report.pdf") one_table_service 3
           [ [ [lit "Year"; lit "Total"]; [lit " "; lit ""] ] ] []).
  reflexivity.
Defined.

Lemma Qlt_bool_lt a b : Qlt_bool a b = true -> (a < b)%Q.
Proof.
  unfold Qlt_bool. intros H. apply negb_true_iff in H.
  apply Qnot_le_lt. intros L. apply Qle_bool_iff in L. congruence.
Qed.

Lemma chart_near_length edge cs l :
  List.length (flat_map (chart_near edge cs) l)
  = List.length (filter (fun e => chart_like (snd e)) l).
Proof.
  induction l as [|[i image] l IH]; [reflexivity|].
  cbn [flat_map filter snd chart_near]. rewrite length_app, IH.
  destruct (chart_like image); reflexivity.
Qed.

Lemma filter_snd_combine {A B} (f : B -> bool) : forall (l1 : list A) (l2 : list B),
  List.length l1 = List.length l2 ->
  List.length (filter (fun e => f (snd e)) (combine l1 l2))
  = List.length (filter f l2).
Proof.
  induction l1 as [|a l1 IH]; intros [|b l2] H; try discriminate; [reflexivity|].
  cbn [combine filter snd]. simpl in H.
  destruct (f b); cbn [List.length]; rewrite IH by lia; reflexivity.
Qed.

(** X13. The chart detector raises nothing and logs nothing.  It emits
    one block for each image wider and higher than 100 units and none
    for the others; a block carries the dimensions of its image, no
    table data, no heading yet, and a description numbered by the
    position of the image among all images of the page. *)
Theorem charts_are_sound : forall (pg : page) (log : Eff.log),
  exists charts,
    detect_charts_in_page pg log = (Ok charts, log)
    /\ List.length charts = List.length (filter chart_like (page_images pg))
    /\ Forall (sound_chart pg) charts.
Proof.
  intros pg log. unfold detect_charts_in_page, try_except, ret.
  eexists. split; [reflexivity|]. rewrite charts_loop_eq. cbn [app]. split.
  - rewrite chart_near_length. apply filter_snd_combine, length_seq.
  - apply flat_map_Forall. intros [i image] Hin.
    apply enumerated_nth in Hin. destruct Hin as [_ Hn].
    rewrite Nat.sub_0_r in Hn. unfold chart_near.
    destruct (chart_like image) eqn:C; [|constructor].
    constructor; [|constructor]. unfold chart_like in C.
    apply andb_true_iff in C. destruct C as [Cw Ch].
    exists i, image. repeat split; auto using Qlt_bool_lt.
Qed.

(* ================================================================= *)
(** ** More on [parse_pdf] and the command line *)

Lemma process_page_explicit pdf_path read_pdf (numbered : nat * page)
      (log : Eff.log) :
  process_page pdf_path read_pdf (fst numbered, Ok (snd numbered)) log
  = (Ok (page_content pdf_path read_pdf numbered),
     log ++ page_log pdf_path read_pdf numbered).
Proof.
  destruct numbered as [n pg]. cbn [fst snd].
  unfold process_page, page_content, page_log, page_tables,
    extract_tables_from_page, detect_charts_in_page, try_except, bind, call,
    ret, logger_info, logger_warning.
  destruct (read_pdf pdf_path (str_of_nat n)) as [dfs|e].
  - reflexivity.
  - rewrite <- app_assoc. reflexivity.
Qed.

Lemma for_each_explicit pdf_path read_pdf : forall (numbered : list (nat * page)) log,
  for_each (process_page pdf_path read_pdf) (numbered_ok numbered) log
  = (Ok (map (page_content pdf_path read_pdf) numbered),
     log ++ flat_map (page_log pdf_path read_pdf) numbered).
Proof.
  induction numbered as [|np numbered IH]; intros log.
  - cbn. rewrite app_nil_r. reflexivity.
  - cbn [numbered_ok for_each map flat_map]. unfold bind at 1.
    rewrite process_page_explicit. fold (numbered_ok numbered).
    unfold bind at 1. rewrite IH.
    unfold ret. rewrite <- app_assoc. reflexivity.
Qed.

Lemma parse_pdf_explicit pdf_path read_pdf pages log :
  parse_pdf pdf_path true read_pdf (readable pages) log
  = (Ok (map (page_content pdf_path read_pdf) (enumerate1 pages)),
     log ++ [(INFO, lit "Parsing PDF: " ++ pdf_path)]
         ++ flat_map (page_log pdf_path read_pdf) (enumerate1 pages)
         ++ [(INFO, lit "Successfully parsed "
                    ++ str_of_nat (List.length pages) ++ lit " pages")]).
Proof.
  unfold parse_pdf, readable, bind, call, logger_info, ret. cbn [negb].
  rewrite enumerate1_map_ok, for_each_explicit.
  rewrite length_map. unfold enumerate1 at 3.
  rewrite length_combine, length_seq, Nat.min_id.
  rewrite <- !app_assoc. reflexivity.
Qed.

(** X14. No state crosses pages: the entry of a page in the result is
    its number, counted from 1, with the content computed from that page
    alone and the answer of the table service for that number.  Neither
    the log nor what happened on other pages has a part in it. *)
Theorem pages_are_independent :
  forall pdf_path read_pdf (pages : list page) (log : Eff.log),
    fst (parse_pdf pdf_path true read_pdf (readable pages) log)
    = Ok (map (page_content pdf_path read_pdf) (enumerate1 pages)).
Proof.
  intros. rewrite parse_pdf_explicit. reflexivity.
Qed.

Lemma page_log_warnings pdf_path read_pdf : forall numbered : list (nat * page),
  List.length (filter is_warning (flat_map (page_log pdf_path read_pdf) numbered))
  = List.length (filter (table_failure pdf_path read_pdf) (map fst numbered)).
Proof.
  induction numbered as [|[n pg] numbered IH]; [reflexivity|].
  cbn [flat_map map fst filter]. rewrite filter_app, length_app, IH.
  unfold page_log, table_failure at 2.
  destruct (read_pdf pdf_path (str_of_nat n)); reflexivity.
Qed.

(** X15. A run over an existing file adds to the log one warning for
    each page on which the table service fails, and no other warning. *)
Theorem one_warning_per_failed_page :
  forall pdf_path read_pdf (pages : list page) (log : Eff.log),
    List.length (filter is_warning
                   (snd (parse_pdf pdf_path true read_pdf (readable pages) log)))
    = List.length (filter is_warning log)
      + List.length (filter (table_failure pdf_path read_pdf)
                            (seq 1 (List.length pages))).
Proof.
  intros. rewrite parse_pdf_explicit. cbn [snd].
  rewrite !filter_app, !length_app, page_log_warnings.
  unfold enumerate1. rewrite map_fst_combine by apply length_seq.
  cbn. lia.
Qed.

(** *** When the decoder fails *)








(* ================================================================= *)
(** ** How a section starts, and how many paragraphs a page gives *)

Lemma heading_group_head first pat line g :
  heading_from first pat ->
  match_group1 true pat line = Some g -> starts_in first (Some (strip g)).
Proof.
  intros [cl q rest Hq Hcl Hno Hcls]. unfold match_group1.
  destruct (rmatch true _ None line 0 0 0) as [[[e gs'] ge']|] eqn:E;
    [|discriminate].
  intros G. injection G as <-.
  cbn [rmatch at_bol quant_bounds] in E.
  apply try_down_some in E. destruct E as [j0 [_ E]].
  cbn [rmatch] in E.
  destruct (quant_bounds q (span_len cl (skipn j0 line))) as [lo hi] eqn:B.
  apply try_down_some in E. destruct E as [j1 [Hj1 E]].
  assert (Hlo : lo = 1 /\ hi <= span_len cl (skipn j0 line)).
  { destruct Hq; subst q; unfold quant_bounds in B; injection B as <- <-;
      (split; [reflexivity | destruct (span_len cl (skipn j0 line)); lia]). }
  destruct Hlo as [-> Hhi].
  destruct (span_len_pos cl (skipn j0 line) ltac:(lia)) as [c [t [Hs Hc]]].
  pose proof (rmatch_keeps_start _ _ _ _ _ _ _ _ _ _ Hno E) as ->.
  pose proof (rmatch_end_after _ _ _ _ _ _ _ _ _ _ Hcls E) as Hge.
  simpl in Hge. change (0 + j0) with j0. rewrite Hs.
  replace (ge' - j0) with (S (ge' - j0 - 1)) by lia.
  destruct (Hcl c Hc) as [Hsp Hf].
  cbn [firstn]. unfold strip, lstrip. cbn [drop_while].
  rewrite Hsp. rewrite rstrip_cons_keep by exact Hsp. exact Hf.
Qed.

Lemma section_patterns_from :
  Forall (heading_from is_digit_or_upper) section_patterns.
Proof.
  unfold section_patterns.
  repeat (apply Forall_cons;
          [apply heading_from_intro;
           [ (left; reflexivity) || (right; reflexivity)
           | intros c Hc; unfold is_digit_or_upper; rewrite Hc;
             split; [auto with heading | auto using orb_true_r]
           | reflexivity | reflexivity ]|]).
  apply Forall_nil.
Qed.

Lemma scan_section_starts pats line section :
  Forall (heading_from is_digit_or_upper) pats ->
  starts_in is_digit_or_upper section ->
  starts_in is_digit_or_upper (scan_section pats line section).
Proof.
  intros Hp Hs. induction Hp as [|pat rest Hpat _ IH]; [exact Hs|].
  cbn [scan_section].
  destruct (match_group1 true pat line) as [g|] eqn:E; [|exact IH].
  destruct (negb (truthy section)); [|exact IH].
  exact (heading_group_head _ _ _ _ Hpat E).
Qed.

Lemma scan_lines_starts : forall lines st,
  starts_in is_digit_or_upper (fst st) ->
  starts_in is_digit_or_upper (fst (fold_left scan_line lines st)).
Proof.
  induction lines as [|x lines IH]; intros st H; [exact H|].
  cbn [fold_left]. apply IH. unfold scan_line.
  destruct (strip x) as [|c t]; [exact H|].
  unfold classify_line. cbn [fst].
  apply scan_section_starts; [apply section_patterns_from | exact H].
Qed.

(** X18. A section, when the classifier returns one, starts with a
    digit or a capital letter. *)
Theorem section_starts_with_digit_or_capital : forall text : str,
  starts_in is_digit_or_upper (fst (extract_sections_and_subsections text)).
Proof.
  intros text. unfold extract_sections_and_subsections.
  apply scan_lines_starts. exact I.
Qed.

Lemma flush_length buf : List.length (flush buf) <= 1.
Proof.
  unfold flush. destruct (10 <? _); [|simpl; lia].
  destruct (extract_sections_and_subsections _). simpl. lia.
Qed.

Lemma seg_finish_length st :
  List.length (content_blocks st) <= List.length (seg_finish st)
  /\ List.length (seg_finish st) <= 1 + List.length (content_blocks st).
Proof.
  unfold seg_finish. destruct (current_paragraph st) as [|b buf]; [lia|].
  rewrite length_app. pose proof (flush_length (b :: buf)). lia.
Qed.

Lemma seg_step_count st ln :
  List.length (seg_finish (seg_step st ln)) <= 1 + List.length (seg_finish st).
Proof.
  destruct ln as [y cs]. unfold seg_step.
  destruct (line_text cs) as [|a t]; [lia|].
  pose proof (seg_finish_length st) as [L1 L2].
  destruct (gap_exceeded y (current_y_group st)).
  - destruct (current_paragraph st) as [|b buf] eqn:P.
    + match goal with |- List.length (seg_finish ?s) <= _ =>
        pose proof (seg_finish_length s) as [_ U] end.
      cbn [content_blocks] in U. lia.
    + match goal with |- List.length (seg_finish ?s) <= _ =>
        pose proof (seg_finish_length s) as [_ U] end.
      cbn [content_blocks] in U.
      unfold seg_finish at 2. rewrite P. exact U.
  - match goal with |- List.length (seg_finish ?s) <= _ =>
      pose proof (seg_finish_length s) as [_ U] end.
    cbn [content_blocks] in U. lia.
Qed.

Lemma seg_after_count lines :
  List.length (seg_finish (seg_after lines)) <= List.length lines.
Proof.
  unfold seg_after.
  induction lines as [|ln lines IH] using rev_ind; [simpl; lia|].
  rewrite fold_left_app, length_app. cbn [fold_left List.length].
  pose proof (seg_step_count (fold_left seg_step lines seg_init) ln). lia.
Qed.

(** X19. A page gives at most one paragraph per line of text: the number
    of blocks the segmenter emits is bounded by the number of distinct
    rounded heights on the page. *)
Theorem at_most_one_paragraph_per_line : forall text_objects : list pdf_char,
  List.length (analyze_content_blocks text_objects)
  <= List.length (group_lines text_objects).
Proof.
  intros cs. rewrite analyze_content_blocks_eq.
  eapply Nat.le_trans; [apply seg_after_count|].
  rewrite (Permutation_length (sorted_lines_perm (group_lines cs))).
  reflexivity.
Qed.

(* ================================================================= *)
(** ** The gap between lines: claim C3 *)

Lemma add_char_new k c : forall pre,
  ~ In k (map fst pre) -> add_char k c pre = pre ++ [(k, [c])].
Proof.
  induction pre as [|[k0 cs0] pre IH]; intros Hn; [reflexivity|].
  cbn [add_char app]. destruct (Z.eqb_spec k0 k) as [E|N].
  - exfalso. apply Hn. left. exact E.
  - rewrite IH; [reflexivity|]. intros H. apply Hn. right. exact H.
Qed.

Lemma add_char_last k c acc : forall pre,
  ~ In k (map fst pre) ->
  add_char k c (pre ++ [(k, acc)]) = pre ++ [(k, acc ++ [c])].
Proof.
  induction pre as [|[k0 cs0] pre IH]; intros Hn.
  - cbn [add_char app]. rewrite Z.eqb_refl. reflexivity.
  - cbn [add_char app]. destruct (Z.eqb_spec k0 k) as [E|N].
    + exfalso. apply Hn. left. exact E.
    + rewrite IH; [reflexivity|]. intros H. apply Hn. right. exact H.
Qed.

Lemma group_fold_block k pre : forall cs acc,
  Forall (fun c => line_key c = k) cs ->
  ~ In k (map fst pre) ->
  fold_left (fun lines c => add_char (round1 (c_y0 c)) c lines) cs
            (pre ++ [(k, acc)])
  = pre ++ [(k, acc ++ cs)].
Proof.
  induction cs as [|c cs IH]; intros acc H Hn.
  - rewrite app_nil_r. reflexivity.
  - inversion H as [|? ? Hc Hcs]; subst. cbn [fold_left].
    fold (line_key c). rewrite add_char_last by exact Hn.
    rewrite IH by assumption. rewrite <- app_assoc. reflexivity.
Qed.

Lemma group_lines_two first second k1 k2 :
  Forall (fun c => line_key c = k1) first ->
  Forall (fun c => line_key c = k2) second ->
  k1 <> k2 -> first <> [] -> second <> [] ->
  group_lines (first ++ second) = [(k1, first); (k2, second)].
Proof.
  intros H1 H2 Hk N1 N2.
  destruct first as [|u0 us]; [congruence|].
  destruct second as [|l0 ls]; [congruence|].
  inversion H1 as [|? ? Hu0 Hus]; inversion H2 as [|? ? Hl0 Hls].
  unfold group_lines. rewrite fold_left_app.
  cbn [fold_left add_char].
  change (round1 (c_y0 u0)) with (line_key u0). rewrite Hu0.
  pose proof (group_fold_block k1 [] us [u0] Hus (fun f => f)) as P1.
  cbn [app] in P1. rewrite P1. clear P1.
  change (round1 (c_y0 l0)) with (line_key l0). rewrite Hl0.
  assert (Hn : ~ In k2 (map fst [(k1, u0 :: us)])).
  { intros [E|[]]. cbn [fst] in E. congruence. }
  rewrite (add_char_new k2 l0 [(k1, u0 :: us)] Hn).
  rewrite (group_fold_block k2 [(k1, u0 :: us)] ls [l0] Hls Hn).
  reflexivity.
Qed.

Lemma two_lines_walk k_upper k_lower upper lower :
  line_text upper <> [] -> line_text lower <> [] ->
  seg_finish (seg_after [(k_upper, upper); (k_lower, lower)])
  = two_line_blocks k_upper k_lower (line_text upper) (line_text lower).
Proof.
  intros Nu Nl. unfold seg_after, two_line_blocks. cbn [fold_left].
  unfold seg_step at 2. destruct (line_text upper) as [|a t]; [congruence|].
  cbn [seg_init current_y_group gap_exceeded current_paragraph content_blocks app].
  unfold seg_step. destruct (line_text lower) as [|b u]; [congruence|].
  cbn [current_y_group gap_exceeded current_paragraph content_blocks].
  destruct (Dbl.ltb gap_limit (gap k_lower k_upper)); reflexivity.
Qed.

Lemma line_text_nonempty cs : line_text cs <> [] -> cs <> [].
Proof. intros H ->. apply H. reflexivity. Qed.

Lemma above_limit_or_within d :
  d <> S754_nan -> Dbl.ltb gap_limit d = negb (SFleb d gap_limit).
Proof.
  intros H. unfold Dbl.ltb, SFltb, SFleb.
  destruct d as [s|s| |s m e]; try congruence; try (destruct s; reflexivity).
  destruct s; [reflexivity|].
  change gap_limit with (S754_finite false 5629499534213120 (-48)).
  cbn [SFcompare].
  rewrite (Z.compare_antisym e (-48)).
  destruct (e ?= -48)%Z; cbn [CompOpp]; try reflexivity.
  pose proof (Pos.compare_cont_antisym m 5629499534213120 Eq) as A.
  cbn [CompOpp] in A. rewrite <- A.
  destruct (Pos.compare_cont Eq m 5629499534213120); reflexivity.
Qed.

(** C3 as the claim words it fails at a distance of 20, where the
    rounding of the floats decides.  The lines at 32.2 and 12.2 are 20
    units apart as decimals and are split, because the two floats differ
    by 20.000000000000004.  The floats for 20.3 and 0.3 differ by more
    than 20 and are merged, because their difference rounds to 20. *)
Lemma gap_at_most_20_counterexample :
  ~ merges_exactly_when decimal_gap_within
  /\ ~ merges_exactly_when exact_gap_within
  /\ decimal_gap_within 122 322 = true
  /\ gap_exceeded 122 (Some 322%Z) = true
  /\ exact_gap_within 3 203 = false
  /\ gap_exceeded 3 (Some 203%Z) = false.
Proof.
  split; [|split; [|repeat split; vm_compute; reflexivity]].
  - intros H.
    specialize (H [(322%Z, glyphs (float_literal (322 # 10))
                                  "first line, of text.")]
                  322%Z 122%Z
                  (glyphs (float_literal (122 # 10)) "second line.")
                  eq_refl ltac:(vm_compute; discriminate)).
    apply (f_equal (fun st => List.length (current_paragraph st))) in H.
    vm_compute in H. discriminate H.
  - intros H.
    specialize (H [(203%Z, glyphs (float_literal (203 # 10))
                                  "first line, of text.")]
                  203%Z 3%Z
                  (glyphs (float_literal (3 # 10)) "second line.")
                  eq_refl ltac:(vm_compute; discriminate)).
    apply (f_equal (fun st => List.length (current_paragraph st))) in H.
    vm_compute in H. discriminate H.
Qed.

(** C3, amended.  When a non-empty line at [y] follows a non-empty line
    at [y0], the running buffer is flushed and the line starts a new
    paragraph if [abs(y - y0)], computed in double precision on the two
    rounded coordinates, is greater than 20; otherwise the line joins
    the running paragraph.  Unless that difference is not a number, not
    greater than 20 is at most 20.  A page of two lines of text gives,
    whichever line the page lists first, one paragraph (upper line
    first) when the computed difference is not greater than 20 and two
    paragraphs, upper one first, when it is.  Lines at 100 and 95 give
    one paragraph, lines at 100 and 70 give two. *)
Theorem paragraph_gap_rule :
  (forall lines y0 y chars,
     current_y_group (seg_after lines) = Some y0 ->
     line_text chars <> [] ->
     seg_step (seg_after lines) (y, chars)
     = if Dbl.ltb gap_limit (gap y y0)
       then {| content_blocks :=
                 content_blocks (seg_after lines)
                 ++ flush (current_paragraph (seg_after lines));
               current_paragraph := [line_text chars];
               current_y_group := Some y |}
       else {| content_blocks := content_blocks (seg_after lines);
               current_paragraph :=
                 current_paragraph (seg_after lines) ++ [line_text chars];
               current_y_group := Some y |})
  /\ (forall d, d <> S754_nan ->
                Dbl.ltb gap_limit d = negb (SFleb d gap_limit))
  /\ (forall upper lower k_upper k_lower,
        Forall (fun c => line_key c = k_upper) upper ->
        Forall (fun c => line_key c = k_lower) lower ->
        (k_lower < k_upper)%Z ->
        line_text upper <> [] -> line_text lower <> [] ->
        analyze_content_blocks (upper ++ lower)
        = two_line_blocks k_upper k_lower (line_text upper) (line_text lower)
        /\ analyze_content_blocks (lower ++ upper)
           = two_line_blocks k_upper k_lower (line_text upper) (line_text lower))
  /\ analyze_content_blocks (two_lines 100 95)
     = [ParagraphBlock None None (lit "first line, of text. second line.")]
  /\ analyze_content_blocks (two_lines 100 70)
     = [ParagraphBlock None None (lit "first line, of text.");
        ParagraphBlock None None (lit "second line.")]
  /\ analyze_content_blocks
       (glyphs 95 "second line." ++ glyphs 100 "first line, of text.")
     = [ParagraphBlock None None (lit "first line, of text. second line.")]
  /\ analyze_content_blocks
       (glyphs 70 "second line." ++ glyphs 100 "first line, of text.")
     = [ParagraphBlock None None (lit "first line, of text.");
        ParagraphBlock None None (lit "second line.")].
Proof.
  split; [|split; [exact above_limit_or_within|split]].
  - intros lines y0 y chars Hy Hl.
    destruct (seg_after_buffer lines) as [Hn|Hb]; [congruence|].
    set (st := seg_after lines) in *.
    unfold seg_step. destruct (line_text chars) as [|c t]; [congruence|].
    rewrite Hy. cbn [gap_exceeded].
    destruct (Dbl.ltb gap_limit (gap y y0)).
    + destruct (current_paragraph st) eqn:P; [congruence|]. reflexivity.
    + destruct st; reflexivity.
  - intros upper lower k_upper k_lower Hu Hl Hk Nu Nl.
    pose proof (line_text_nonempty _ Nu) as Eu.
    pose proof (line_text_nonempty _ Nl) as El.
    rewrite !analyze_content_blocks_eq.
    rewrite (group_lines_two upper lower k_upper k_lower) by (assumption || lia).
    rewrite (group_lines_two lower upper k_lower k_upper) by (assumption || lia).
    cbn [sorted_lines fold_right insert_desc fst].
    replace (k_lower <=? k_upper)%Z with true by (symmetry; apply Z.leb_le; lia).
    replace (k_upper <=? k_lower)%Z with false by (symmetry; apply Z.leb_gt; lia).
    split; apply two_lines_walk; assumption.
  - repeat split; vm_compute; reflexivity.
Qed.

Lemma paragraph_gap_rule_witness :
  seg_step (seg_after [(1000%Z, glyphs 100 "first line, of text.")])
           (950%Z, glyphs 95 "second line.")
  = {| content_blocks := [];
       current_paragraph := [lit "first line, of text."; lit "second line."];
       current_y_group := Some 950%Z |}.
Proof.
  rewrite (proj1 paragraph_gap_rule
             [(1000%Z, glyphs 100 "first line, of text.")] 1000%Z 950%Z
             (glyphs 95 "second line.")).
  - vm_compute. reflexivity.
  - vm_compute. reflexivity.
  - vm_compute. discriminate.
Defined.

(** The subtraction is the one of the floats: the doubles nearest to
    32.2 and 12.2 differ by 20.000000000000004, and those lines split;
    the doubles nearest to 30 and 10 differ by 20, and those merge. *)
Lemma gap_of_rounded_floats :
  gap 322 122 = S754_finite false 5629499534213121 (-48)
  /\ gap_limit = S754_finite false 5629499534213120 (-48)
  /\ gap_exceeded 322 (Some 122%Z) = true
  /\ gap_exceeded 300 (Some 100%Z) = false
  /\ List.length (analyze_content_blocks
                    (glyphs (float_literal (322 # 10)) "first line, of text."
                     ++ glyphs (float_literal (122 # 10)) "second line.")) = 2.
Proof. repeat split; vm_compute; reflexivity. Qed.

